(** * The bounded tool-calling loop of the course-materials chatbot

    A shallow embedding of [backend/ai_generator.py] (class [AIGenerator]):
    the data exchanged with the LLM completion service, the calls made to
    the service and to the tool dispatcher, and the loop of
    [generate_response] that runs at most [MAX_TOOL_ROUNDS] rounds of tool
    calls before extracting the answer. *)

From stdpp Require Import base list strings gmap.

Local Open Scope Z_scope.

(** * Data model *)

(** A content block of a completion.  The source tells the two kinds apart
    by duck typing: [hasattr(block, "text")] holds of a text block only,
    and [block.type == "tool_use"] of a tool-use block only, whose [id],
    [name] and [input] (a dict of named arguments) are then read. *)
Inductive ContentBlock : Type :=
| TextBlock (text : string)
| ToolUseBlock (id name : string) (input : gmap string string).

(** The value of [client.messages.create]: [response.stop_reason] and
    [response.content]. *)
Record Response : Type := {
  stop_reason : string;
  content : list ContentBlock
}.

(** The dict [{"type": "tool_result", "tool_use_id": ..., "content": ...}]
    built for every executed tool call. *)
Record ToolResult : Type := {
  tool_use_id : string;
  result_content : string
}.

Inductive Role : Type := user | assistant.

(** The value under the key ["content"] of a message: the query text, the
    content of a completion, or the tool results of a round. *)
Inductive MessageContent : Type :=
| Text (s : string)
| Blocks (blocks : list ContentBlock)
| ToolResults (results : list ToolResult).

(** The dict [{"role": ..., "content": ...}]. *)
Record Message : Type := {
  role : Role;
  message_content : MessageContent
}.

(** An entry of [tools]; the generator passes these on untouched. *)
Record ToolDefinition : Type := {
  tool_name : string;
  description : string;
  input_schema : gmap string string
}.

(** The dict under the key ["tool_choice"].  The service knows the modes
    [auto], [any] and [tool] (the last two force a call); the generator only
    ever builds [{"type": "auto"}]. *)
Inductive ToolChoice : Type :=
| choice_auto
| choice_any
| choice_tool (name : string).

(** The keyword arguments of [client.messages.create].  The
    keys ["tools"] and ["tool_choice"] are optional. *)
Record Request : Type := {
  model : string;
  temperature : Z;
  max_tokens : Z;
  messages : list Message;
  system : string;
  tools : option (list ToolDefinition);
  tool_choice : option ToolChoice
}.

(** * Calls, exceptions and the call log *)

(** A Python call either returns a value or raises an exception, carried
    here by its description. *)
Inductive outcome (A : Type) : Type :=
| Returned (a : A)
| Raised (e : string).
Arguments Returned {A} a.
Arguments Raised {A} e.

(** One call that leaves the generator, with its arguments (as they are at
    the time of the call) and what came back. *)
Inductive Event : Type :=
| Created (request : Request) (reply : outcome Response)
| Executed (name : string) (input : gmap string string) (reply : outcome string).

(** The LLM client: [create] is [client.messages.create], acting on the
    client's own state [C] (connection, mock script, ...). *)
Record Client (C : Type) : Type := {
  create : Request -> C -> outcome Response * C
}.
Arguments create {C} _ _ _.

(** The tool dispatcher handed in as [tool_manager]: [execute_tool] is
    [tool_manager.execute_tool(name, **input)], acting on the dispatcher's
    state [T] (registered tools and their recorded sources). *)
Record Dispatcher (T : Type) : Type := {
  execute_tool : string -> gmap string string -> T -> outcome string * T
}.
Arguments execute_tool {T} _ _ _ _.

(** The objects the generator mutates through its calls. *)
Record World (C T : Type) : Type := {
  client_state : C;
  manager_state : T
}.
Arguments client_state {C T} _.
Arguments manager_state {C T} _.

(** [AIGenerator.__init__]: the client and the model name; [base_params]
    is rebuilt from them below. *)
Record AIGenerator (C : Type) : Type := {
  client : Client C;
  self_model : string
}.
Arguments client {C} _.
Arguments self_model {C} _.

(** * Constants of the class *)

Definition MAX_TOOL_ROUNDS : nat := 2.

Definition nl : string := String (Ascii.ascii_of_nat 10) EmptyString.
Definition dq : string := String (Ascii.ascii_of_nat 34) EmptyString.

Definition SYSTEM_PROMPT : string :=
" You are an AI assistant specialized in course materials and educational content with access to two tools:

1. **search_course_content** — Search within course lesson text for specific topics, concepts, or details.
2. **get_course_outline** — Retrieve a course's title, link, and full lesson list. Use this when asked about what a course covers, its outline, structure, overview, or lesson list.

Tool Usage:
- Use `get_course_outline` for questions about course structure, outlines, overviews, or " +:+ dq +:+ "what lessons are in" +:+ dq +:+ " a course
- Use `search_course_content` for questions about specific topics, concepts, or details within course content
- **Up to two tool calls per query** — you may call one tool, review the results, then call a second tool if needed
- Example workflow: use `get_course_outline` to find the course structure, then `search_course_content` to look up details from a specific lesson
- If a tool yields no results, state this clearly without offering alternatives

Response Protocol:
- **General knowledge questions**: Answer using existing knowledge without searching
- **Course outline/overview questions**: Use `get_course_outline`, then present the course title, course link, and complete lesson list (number + title for each)
- **Course content questions**: Use `search_course_content`, then synthesize results into an accurate response
- **Multi-step questions**: If a question requires information from multiple sources (e.g., course structure AND specific content), use tools sequentially to gather all needed information before responding
- **No meta-commentary**:
 - Provide direct answers only — no reasoning process, search explanations, or question-type analysis
 - Do not mention " +:+ dq +:+ "based on the search results" +:+ dq +:+ "

All responses must be:
1. **Brief, Concise and focused** - Get to the point quickly
2. **Educational** - Maintain instructional value
3. **Clear** - Use accessible language
4. **Example-supported** - Include relevant examples when they aid understanding
Provide only the direct answer to what was asked.
".

(** The text returned when the final completion has no text block. *)
Definition fallback_message : string :=
  "I wasn't able to complete my analysis. Please try rephrasing your question.".

(** Python truthiness of the optional arguments. *)
Definition truthy_str (s : option string) : bool :=
  match s with
  | Some (String _ _) => true
  | _ => false
  end.

Definition truthy_list {A} (l : option (list A)) : bool :=
  match l with
  | Some (_ :: _) => true
  | _ => false
  end.

Definition truthy_obj {A} (o : option A) : bool :=
  match o with
  | Some _ => true
  | None => false
  end.

(** * The generator *)

Section Generator.
Context {C T : Type}.

(** A computation that may call the client and the dispatcher: from the
    world before to the outcome, the world after and the calls made, in
    order.  An exception leaves the world as it was when raised. *)
Definition M (A : Type) : Type :=
  World C T -> outcome A * World C T * list Event.

Definition ret {A} (a : A) : M A := fun w => (Returned a, w, []).

Definition bind {A B} (m : M A) (k : A -> M B) : M B :=
  fun w =>
    match m w with
    | (Returned a, w1, calls1) =>
        match k a w1 with
        | (r, w2, calls2) => (r, w2, calls1 ++ calls2)
        end
    | (Raised e, w1, calls1) => (Raised e, w1, calls1)
    end.

Notation "x <- m ;; k" := (bind m (fun x => k))
  (at level 100, m at next level, k at level 200, right associativity).

(** [self.client.messages.create] with the keyword arguments [api_params] *)
Definition messages_create (self : AIGenerator C) (api_params : Request)
  : M Response :=
  fun w =>
    match create (client self) api_params (client_state w) with
    | (reply, c) =>
        (reply,
         {| client_state := c; manager_state := manager_state w |},
         [Created api_params reply])
    end.

(** [tool_manager.execute_tool(block.name, **block.input)] *)
Definition call_execute_tool (tool_manager : Dispatcher T)
    (name : string) (input : gmap string string) : M string :=
  fun w =>
    match execute_tool tool_manager name input (manager_state w) with
    | (reply, t) =>
        (reply,
         {| client_state := client_state w; manager_state := t |},
         [Executed name input reply])
    end.

(** The [for block in response.content] loop of [_execute_tool_calls],
    with the list [tool_results] built so far. *)
Fixpoint execute_blocks (tool_manager : Dispatcher T)
    (blocks : list ContentBlock) (tool_results : list ToolResult)
  : M (list ToolResult) :=
  match blocks with
  | [] => ret tool_results
  | TextBlock _ :: rest => execute_blocks tool_manager rest tool_results
  | ToolUseBlock id name input :: rest =>
      result <- call_execute_tool tool_manager name input ;;
      execute_blocks tool_manager rest
        (tool_results ++
           [{| tool_use_id := id; result_content := result |}])
  end.

Definition _execute_tool_calls (response : Response)
    (tool_manager : Dispatcher T) : M (list ToolResult) :=
  execute_blocks tool_manager (content response) [].

(** [api_params["messages"] = messages] *)
Definition set_messages (api_params : Request) (msgs : list Message)
  : Request :=
  {| model := model api_params;
     temperature := temperature api_params;
     max_tokens := max_tokens api_params;
     messages := msgs;
     system := system api_params;
     tools := tools api_params;
     tool_choice := tool_choice api_params |}.

(** The [for round_num in range(self.MAX_TOOL_ROUNDS)] loop over the
    remaining values of [round_num].  It leaves with the local variables
    [messages] and [response] as they are at the [break] or when the range
    is used up. *)
Fixpoint tool_loop (self : AIGenerator C)
    (tool_manager : option (Dispatcher T)) (rounds : list nat)
    (api_params : Request) (msgs : list Message) (response : Response)
  : M (list Message * Response) :=
  match rounds with
  | [] => ret (msgs, response)
  | _ :: rounds' =>
      if negb (String.eqb (stop_reason response) "tool_use")
         || negb (truthy_obj tool_manager)
      then ret (msgs, response)
      else
        match tool_manager with
        | None => ret (msgs, response)
        | Some tm =>
            tool_results <- _execute_tool_calls response tm ;;
            match tool_results with
            | [] => ret (msgs, response)
            | _ :: _ =>
                let msgs :=
                  msgs ++
                    [{| role := assistant;
                        message_content := Blocks (content response) |};
                     {| role := user;
                        message_content := ToolResults tool_results |}] in
                let api_params := set_messages api_params msgs in
                response <- messages_create self api_params ;;
                tool_loop self tool_manager rounds' api_params msgs response
            end
        end
  end.

(** The final [for block in response.content] scan. *)
Fixpoint first_text (blocks : list ContentBlock) : option string :=
  match blocks with
  | [] => None
  | TextBlock text :: _ => Some text
  | ToolUseBlock _ _ _ :: rest => first_text rest
  end.

Definition extract_text (response : Response) : string :=
  match first_text (content response) with
  | Some text => text
  | None => fallback_message
  end.

Definition system_content (conversation_history : option string) : string :=
  if truthy_str conversation_history then
    match conversation_history with
    | Some h =>
        SYSTEM_PROMPT +:+ nl +:+ nl +:+ "Previous conversation:" +:+ nl +:+ h
    | None => SYSTEM_PROMPT
    end
  else SYSTEM_PROMPT.

(** The request of the first call: [base_params], the messages, the system
    context and, when [tools] is truthy, the tools with the automatic
    choice. *)
Definition initial_params (self : AIGenerator C) (query : string)
    (conversation_history : option string)
    (tool_defs : option (list ToolDefinition)) : Request :=
  let api_params :=
    {| model := self_model self;
       temperature := 0;
       max_tokens := 800;
       messages := [{| role := user; message_content := Text query |}];
       system := system_content conversation_history;
       tools := None;
       tool_choice := None |} in
  if truthy_list tool_defs then
    {| model := model api_params;
       temperature := temperature api_params;
       max_tokens := max_tokens api_params;
       messages := messages api_params;
       system := system api_params;
       tools := tool_defs;
       tool_choice := Some choice_auto |}
  else api_params.

Definition generate_response (self : AIGenerator C) (query : string)
    (conversation_history : option string)
    (tool_defs : option (list ToolDefinition))
    (tool_manager : option (Dispatcher T)) : M string :=
  let api_params :=
    initial_params self query conversation_history tool_defs in
  response <- messages_create self api_params ;;
  final <- tool_loop self tool_manager (seq 0 MAX_TOOL_ROUNDS)
             api_params (messages api_params) response ;;
  ret (extract_text (snd final)).

End Generator.

(** * Stand-ins for the collaborators

    The test suite replaces the client and the dispatcher by mocks that
    reply from a prescribed list ([side_effect]) or with one fixed value
    ([return_value]).  The same stand-ins give every sequence of
    completions a generator can meet: an invocation against any client is
    the invocation against the script of the replies of that client
    ([generate_response_replay] below). *)

(** A client that replies with the entries of its script in order, whatever
    the request; a used-up script raises, as a mock does. *)
Definition script_client : Client (list (outcome Response)) :=
  {| create := fun _ script =>
       match script with
       | [] => (Raised "StopIteration", [])
       | reply :: script' => (reply, script')
       end |}.

(** A generator for the model [m] whose client is the scripted one; the
    tests use the model name [claude-test]. *)
Definition scripted_generator (m : string)
  : AIGenerator (list (outcome Response)) :=
  {| client := script_client; self_model := m |}.

Definition script_generator : AIGenerator (list (outcome Response)) :=
  scripted_generator "claude-test".

(** A dispatcher that answers every call with [value]. *)
Definition constant_dispatcher (value : string) : Dispatcher unit :=
  {| execute_tool := fun _ _ t => (Returned value, t) |}.

(** A dispatcher that replies with the entries of its script in order. *)
Definition script_dispatcher : Dispatcher (list (outcome string)) :=
  {| execute_tool := fun _ _ script =>
       match script with
       | [] => (Raised "StopIteration", [])
       | reply :: script' => (reply, script')
       end |}.

(** [make_text_response] and [make_tool_use_response] of the test helpers. *)
Definition make_text_response (text : string) : Response :=
  {| stop_reason := "end_turn"; content := [TextBlock text] |}.

Definition make_tool_use_response (name : string)
    (input : gmap string string) (id : string) : Response :=
  {| stop_reason := "tool_use"; content := [ToolUseBlock id name input] |}.

(** * Reading the call log *)

(** A tool-use block as a call: identifier, tool name, named arguments. *)
Record ToolCall : Type := {
  call_id : string;
  call_name : string;
  call_input : gmap string string
}.

(** The tool-use blocks of a completion, in the order they appear. *)
Fixpoint tool_uses (blocks : list ContentBlock) : list ToolCall :=
  match blocks with
  | [] => []
  | TextBlock _ :: rest => tool_uses rest
  | ToolUseBlock id name input :: rest =>
      {| call_id := id; call_name := name; call_input := input |}
        :: tool_uses rest
  end.

(** The log entry of a call that returned [s], and the tool result built
    from it. *)
Definition executed (c : ToolCall) (s : string) : Event :=
  Executed (call_name c) (call_input c) (Returned s).

Definition result_of (c : ToolCall) (s : string) : ToolResult :=
  {| tool_use_id := call_id c; result_content := s |}.

(** The two messages a round appends after the completion [r], when the
    dispatcher returned the strings [ss] for its tool-use blocks. *)
Definition round_messages (r : Response) (ss : list string) : list Message :=
  [{| role := assistant; message_content := Blocks (content r) |};
   {| role := user;
      message_content :=
        ToolResults (zip_with result_of (tool_uses (content r)) ss) |}].

Definition is_created (ev : Event) : bool :=
  match ev with
  | Created _ _ => true
  | Executed _ _ _ => false
  end.

Definition is_executed (ev : Event) : bool := negb (is_created ev).

(** The LLM requests of a log. *)
Definition requests (calls : list Event) : list Event :=
  List.filter is_created calls.

(** The tool dispatches of a log. *)
Definition dispatches (calls : list Event) : list Event :=
  List.filter is_executed calls.

(** The rounds of dispatch of a log: its maximal runs of consecutive tool
    dispatches.  [in_round] tells whether the entry before was one. *)
Fixpoint dispatch_rounds_from (in_round : bool) (calls : list Event) : nat :=
  match calls with
  | [] => O
  | Created _ _ :: rest => dispatch_rounds_from false rest
  | Executed _ _ _ :: rest =>
      ((if in_round then 0 else 1) + dispatch_rounds_from true rest)%nat
  end.

Definition dispatch_rounds (calls : list Event) : nat :=
  dispatch_rounds_from false calls.

(** What a call put in the log raised, if it did. *)
Definition raised_in (ev : Event) : option string :=
  match ev with
  | Created _ (Raised e) => Some e
  | Executed _ _ (Raised e) => Some e
  | _ => None
  end.

(** Two requests that differ at most in their message sequence. *)
Definition same_parameters (a b : Request) : Prop :=
  model a = model b /\ temperature a = temperature b /\
  max_tokens a = max_tokens b /\ system a = system b /\
  tools a = tools b /\ tool_choice a = tool_choice b.

(** The dispatcher, started in state [t], returns the strings [ss] for the
    calls [cs] made in order, and ends in state [t']. *)
Inductive replies {T : Type} (tm : Dispatcher T)
  : T -> list ToolCall -> list string -> T -> Prop :=
| replies_nil t : replies tm t [] [] t
| replies_cons t c s t1 cs ss t' :
    execute_tool tm (call_name c) (call_input c) t = (Returned s, t1) ->
    replies tm t1 cs ss t' ->
    replies tm t (c :: cs) (s :: ss) t'.

(** The shape of the log of the tool loop entered with [n] rounds left, the
    conversation [msgs] and the completion [r]; every request is [api] with
    the conversation of the time. *)
Inductive Loop (api : Request)
  : nat -> list Message -> Response -> list Event ->
    outcome (list Message * Response) -> Prop :=
| loop_stop n msgs r :
    Loop api n msgs r [] (Returned (msgs, r))
| loop_dispatch_raised n msgs r before c rest ss e :
    tool_uses (content r) = before ++ c :: rest ->
    length ss = length before ->
    Loop api (S n) msgs r
      (zip_with executed before ss ++
         [Executed (call_name c) (call_input c) (Raised e)])
      (Raised e)
| loop_create_raised n msgs r ss e :
    length ss = length (tool_uses (content r)) ->
    Loop api (S n) msgs r
      (zip_with executed (tool_uses (content r)) ss ++
         [Created (set_messages api (msgs ++ round_messages r ss)) (Raised e)])
      (Raised e)
| loop_round n msgs r ss r' calls res :
    length ss = length (tool_uses (content r)) ->
    Loop api n (msgs ++ round_messages r ss) r' calls res ->
    Loop api (S n) msgs r
      (zip_with executed (tool_uses (content r)) ss ++
         Created (set_messages api (msgs ++ round_messages r ss)) (Returned r')
           :: calls)
      res.

(** * The tool registry *)







(** Python's [needle in s] on strings. *)
Fixpoint contains (needle s : string) : bool :=
  String.prefix needle s ||
  match s with
  | EmptyString => false
  | String _ s' => contains needle s'
  end.

(** A dispatcher that returns a string whatever the call, as the registry
    of the specification promises. *)
Definition never_raises {T : Type} (tm : Dispatcher T) : Prop :=
  forall name input t, exists s t',
    execute_tool tm name input t = (Returned s, t').

(** The world in which the client will reply with [script] and the
    dispatcher is in state [t]. *)
Definition scripted {T : Type} (script : list (outcome Response)) (t : T)
  : World (list (outcome Response)) T :=
  {| client_state := script; manager_state := t |}.

(** * Scenarios of the test suite *)

Definition one_tool : option (list ToolDefinition) :=
  Some [{| tool_name := "t"; description := ""; input_schema := ∅ |}].

Definition test_input : gmap string string := {["query" := "test"]}.

(** A completion that asks for a tool and says so in a text block. *)
Definition third_resp : Response :=
  {| stop_reason := "tool_use";
     content := [TextBlock "I want to search more";
                 ToolUseBlock "call_3" "search" {["query" := "x"]}] |}.

(** [test_loop_stops_at_max_rounds]: three completions ask for a tool. *)
Definition three_tool_requests : list (outcome Response) :=
  [Returned (make_tool_use_response "search_course_content" test_input "call_1");
   Returned (make_tool_use_response "search_course_content" test_input "call_2");
   Returned third_resp].

(** [test_messages_accumulate_across_rounds]: two rounds, then the answer. *)
Definition resp1 : Response :=
  make_tool_use_response "get_course_outline" {["course_name" := "AI"]} "call_1".

Definition resp2 : Response :=
  make_tool_use_response "search_course_content"
    {["query" := "deep learning"]} "call_2".

(** [test_fallback_when_no_text_block]: three completions that hold a
    tool-use block and no text. *)
Definition tool_only (call : string) : Response :=
  {| stop_reason := "tool_use";
     content := [ToolUseBlock call "search" {["query" := "x"]}] |}.

Definition tool_only_run
  : outcome string * World (list (outcome Response)) unit * list Event :=
  generate_response script_generator "q" None one_tool
    (Some (constant_dispatcher "r"))
    (scripted [Returned (tool_only "call_1"); Returned (tool_only "call_2");
               Returned (tool_only "call_3")] tt).

(** A completion whose only block is a text block with the empty string. *)
Definition empty_text_run
  : outcome string * World (list (outcome Response)) unit * list Event :=
  generate_response script_generator "q" None None None
    (scripted [Returned (make_text_response "")] tt).

(** A block that is not a text block. *)
Definition no_text (block : ContentBlock) : Prop :=
  match block with
  | TextBlock _ => False
  | ToolUseBlock _ _ _ => True
  end.

(** [test_tool_result_sent_back_to_api]: one round with the call
    [call_456], answered by [tool output text]. *)
Definition resp_456 : Response :=
  make_tool_use_response "search_course_content" test_input "call_456".

Definition round_trip_run
  : outcome string * World (list (outcome Response)) unit * list Event :=
  generate_response script_generator "q" None one_tool
    (Some (constant_dispatcher "tool output text"))
    (scripted [Returned resp_456; Returned (make_text_response "Final answer")]
       tt).

(** A completion that signals a tool request and holds no tool-use block. *)
Definition degenerate_resp : Response :=
  {| stop_reason := "tool_use"; content := [TextBlock "Nothing to call"] |}.

(** No tool definitions, but a dispatcher, and a first completion that asks
    for a tool. *)
Definition no_definitions_run
  : outcome string * World (list (outcome Response)) unit * list Event :=
  generate_response script_generator "q" None None
    (Some (constant_dispatcher "r"))
    (scripted [Returned third_resp; Returned (make_text_response "Final answer")]
       tt).

(** A completion with two tool-use blocks, met by a dispatcher that
    returns for the first call and raises for the second. *)
Definition two_calls_resp : Response :=
  {| stop_reason := "tool_use";
     content := [ToolUseBlock "call_1" "get_course_outline"
                   {["course_name" := "MCP"]};
                 ToolUseBlock "call_2" "search_course_content" test_input] |}.

Definition failing_dispatch_run
  : outcome string * World (list (outcome Response)) (list (outcome string))
    * list Event :=
  generate_response script_generator "q" None one_tool
    (Some script_dispatcher)
    (scripted [Returned two_calls_resp; Returned (make_text_response "unused")]
       [Returned "outline"; Raised "store unreachable"]).





(** The replies of the client in a log, in order. *)
Definition created_replies (calls : list Event) : list (outcome Response) :=
  flat_map (fun ev =>
              match ev with
              | Created _ reply => [reply]
              | Executed _ _ _ => []
              end) calls.

(** * The protocol of the loop *)

(** The log of the tool loop with what starts each round: a round is run
    for a completion that asks for a tool and holds at least one tool-use
    block, and its request follows the dispatch of all of them. *)
Inductive Protocol (api : Request)
  : nat -> list Message -> Response -> list Event ->
    outcome (list Message * Response) -> Prop :=
| protocol_stop n msgs r :
    Protocol api n msgs r [] (Returned (msgs, r))
| protocol_dispatch_raised n msgs r before c rest ss e :
    stop_reason r = "tool_use" ->
    tool_uses (content r) = before ++ c :: rest ->
    length ss = length before ->
    Protocol api (S n) msgs r
      (zip_with executed before ss ++
         [Executed (call_name c) (call_input c) (Raised e)])
      (Raised e)
| protocol_create_raised n msgs r ss e :
    stop_reason r = "tool_use" ->
    tool_uses (content r) <> [] ->
    length ss = length (tool_uses (content r)) ->
    Protocol api (S n) msgs r
      (zip_with executed (tool_uses (content r)) ss ++
         [Created (set_messages api (msgs ++ round_messages r ss)) (Raised e)])
      (Raised e)
| protocol_round n msgs r ss r' calls res :
    stop_reason r = "tool_use" ->
    tool_uses (content r) <> [] ->
    length ss = length (tool_uses (content r)) ->
    Protocol api n (msgs ++ round_messages r ss) r' calls res ->
    Protocol api (S n) msgs r
      (zip_with executed (tool_uses (content r)) ss ++
         Created (set_messages api (msgs ++ round_messages r ss)) (Returned r')
           :: calls)
      res.

(** A completed round: the completion and the strings the dispatcher
    returned for its tool-use blocks. *)
Definition round_ok (rd : Response * list string) : Prop :=
  stop_reason (fst rd) = "tool_use" /\
  tool_uses (content (fst rd)) <> [] /\
  length (snd rd) = length (tool_uses (content (fst rd))).

(** The messages that the rounds [rds] append to a conversation. *)
Definition rounds_messages (rds : list (Response * list string))
  : list Message :=
  concat (map (fun rd => round_messages (fst rd) (snd rd)) rds).

(** The roles of a conversation of [k] rounds. *)
Definition alternating (k : nat) : list Role :=
  user :: concat (replicate k [assistant; user]).

(** The messages after the query come in pairs: an assistant message with
    the content of a completion, then a user message with at least one tool
    result, whose identifiers are those of the tool-use blocks of the
    assistant message, in order. *)
Fixpoint answered (msgs : list Message) : bool :=
  match msgs with
  | [] => true
  | {| role := assistant; message_content := Blocks blocks |}
      :: {| role := user; message_content := ToolResults (result :: results) |}
      :: rest =>
      bool_decide (map tool_use_id (result :: results)
                   = map call_id (tool_uses blocks))
      && answered rest
  | _ => false
  end.

(** Every dispatch of the log is the call of a tool-use block of the
    completion received last, [current], which asked for a tool. *)
Fixpoint dispatches_requested (current : option Response)
    (calls : list Event) : Prop :=
  match calls with
  | [] => True
  | Created _ (Returned r) :: rest => dispatches_requested (Some r) rest
  | Created _ (Raised _) :: rest => dispatches_requested None rest
  | Executed name input _ :: rest =>
      (exists r id,
         current = Some r /\ stop_reason r = "tool_use" /\
         In (ToolUseBlock id name input) (content r)) /\
      dispatches_requested current rest
  end.

(** The completions of a log, in order. *)
Definition completions (calls : list Event) : list Response :=
  flat_map (fun ev =>
              match ev with
              | Created _ (Returned r) => [r]
              | _ => []
              end) calls.


(** Two rounds and the answer, as a run. *)
Definition two_rounds_run
  : outcome string * World (list (outcome Response)) unit * list Event :=
  generate_response script_generator "user question" None one_tool
    (Some (constant_dispatcher "outline"))
    (scripted [Returned resp1; Returned resp2;
               Returned (make_text_response "done")] tt).

(** A round whose follow-up request fails in transport. *)
Definition transport_failure_run
  : outcome string * World (list (outcome Response)) unit * list Event :=
  generate_response script_generator "q" None one_tool
    (Some (constant_dispatcher "outline"))
    (scripted [Returned resp1; Raised "connection lost";
               Returned (make_text_response "unused")] tt).

(** The dispatcher, started in state [t], returns the strings [sss] for
    the tool-use blocks of the completions [rs], round after round, and ends
    in state [t']. *)
Inductive rounds_replies {T : Type} (tm : Dispatcher T)
  : T -> list Response -> list (list string) -> T -> Prop :=
| rounds_replies_nil t : rounds_replies tm t [] [] t
| rounds_replies_cons t r ss t1 rs sss t' :
    replies tm t (tool_uses (content r)) ss t1 ->
    rounds_replies tm t1 rs sss t' ->
    rounds_replies tm t (r :: rs) (ss :: sss) t'.

(** The log of rounds followed by an answer: the request [req] is answered
    by the first completion of [rs], whose tool-use blocks are dispatched
    and return [ss]; the next request carries two more messages; the
    request after the last round is answered by [rf]. *)
Fixpoint expected_calls (req : Request) (rs : list Response)
    (sss : list (list string)) (rf : Response) : list Event :=
  match rs, sss with
  | r :: rs', ss :: sss' =>
      Created req (Returned r)
        :: zip_with executed (tool_uses (content r)) ss ++
           expected_calls
             (set_messages req (messages req ++ round_messages r ss))
             rs' sss' rf
  | _, _ => [Created req (Returned rf)]
  end.

(** A completion that asks for a tool, then an answer, met without a
    dispatcher. *)
Definition no_dispatcher_run
  : outcome string * World (list (outcome Response)) unit * list Event :=
  generate_response script_generator "q" None one_tool None
    (scripted [Returned resp1; Returned (make_text_response "done")] tt).

(** * Properties of the tool calls *)

Section ToolCalls.
Context {C T : Type}.
Implicit Types (tm : Dispatcher T) (w : World C T).

Lemma replies_length tm t cs ss t' :
  replies tm t cs ss t' -> length ss = length cs.
Proof. induction 1; simpl; congruence. Qed.

(** What [execute_blocks] does: it dispatches the tool-use blocks in order
    until one raises, and appends one result per block to [acc]. *)
Lemma execute_blocks_calls tm blocks acc w res w' calls :
  execute_blocks tm blocks acc w = (res, w', calls) ->
  client_state w' = client_state w /\
  ((exists ss,
      replies tm (manager_state w) (tool_uses blocks) ss (manager_state w') /\
      calls = zip_with executed (tool_uses blocks) ss /\
      res = Returned (acc ++ zip_with result_of (tool_uses blocks) ss))
   \/
   (exists before c rest ss t e,
      tool_uses blocks = before ++ c :: rest /\
      replies tm (manager_state w) before ss t /\
      execute_tool tm (call_name c) (call_input c) t
        = (Raised e, manager_state w') /\
      calls = zip_with executed before ss ++
                [Executed (call_name c) (call_input c) (Raised e)] /\
      res = Raised e)).
Proof.
  revert acc w res w' calls.
  induction blocks as [|[text|id name input] blocks IH];
    intros acc w res w' calls Hrun; simpl in Hrun.
  - injection Hrun as <- <- <-. split; [done|]. left. exists [].
    split; [constructor|]. by rewrite app_nil_r.
  - by apply IH.
  - unfold bind, call_execute_tool in Hrun.
    destruct (execute_tool tm name input (manager_state w)) as [[s|e] t] eqn:Hcall.
    + destruct (execute_blocks tm blocks _ _) as [[res1 w1] calls1] eqn:Hrest.
      injection Hrun as <- <- <-.
      apply IH in Hrest as [Hclient Hrest]. simpl in *. split; [done|].
      destruct Hrest as [(ss & Hss & -> & ->)
                        |(before & c & rest & ss & t' & e & Huses & Hss & Hc & -> & ->)].
      * left. exists (s :: ss). split; [|split].
        -- by econstructor.
        -- done.
        -- by rewrite <- app_assoc.
      * right.
        exists ({| call_id := id; call_name := name; call_input := input |} :: before),
          c, rest, (s :: ss), t', e.
        rewrite Huses. repeat split; try done. by econstructor.
    + injection Hrun as <- <- <-. simpl. split; [done|]. right.
      exists [], {| call_id := id; call_name := name; call_input := input |},
        (tool_uses blocks), [], (manager_state w), e.
      repeat split; try done. constructor.
Qed.

End ToolCalls.

(** * Properties of call logs *)

Lemma requests_app (l1 l2 : list Event) :
  requests (l1 ++ l2) = requests l1 ++ requests l2.
Proof. apply List.filter_app. Qed.

Lemma requests_executed (cs : list ToolCall) (ss : list string) :
  requests (zip_with executed cs ss) = [].
Proof.
  revert ss. induction cs as [|c cs IH]; intros [|s ss]; simpl; auto.
Qed.

Lemma requests_executed_app cs ss (l : list Event) :
  requests (zip_with executed cs ss ++ l) = requests l.
Proof. by rewrite requests_app, requests_executed. Qed.

Lemma no_raise_executed (cs : list ToolCall) (ss : list string) :
  Forall (fun ev => raised_in ev = None) (zip_with executed cs ss).
Proof.
  revert ss. induction cs as [|c cs IH]; intros [|s ss]; simpl;
    constructor; auto.
Qed.

Lemma rounds_in_round_executed cs ss (l : list Event) :
  dispatch_rounds_from true (zip_with executed cs ss ++ l) =
  dispatch_rounds_from true l.
Proof.
  revert ss. induction cs as [|c cs IH]; intros [|s ss]; simpl; auto.
Qed.

Lemma rounds_from_false_le (l : list Event) :
  (dispatch_rounds_from false l <= 1 + dispatch_rounds_from true l)%nat.
Proof. destruct l as [|[]]; simpl; lia. Qed.

Lemma rounds_from_le_false b (l : list Event) :
  (dispatch_rounds_from b l <= dispatch_rounds_from false l)%nat.
Proof. destruct b; [|done]. destruct l as [|[]]; simpl; lia. Qed.

Lemma rounds_executed_le b cs ss (l : list Event) :
  (dispatch_rounds_from b (zip_with executed cs ss ++ l)
   <= 1 + dispatch_rounds_from true l)%nat.
Proof.
  etrans; [apply rounds_from_le_false|].
  etrans; [apply rounds_from_false_le|].
  by rewrite rounds_in_round_executed.
Qed.

(** A round with at least one dispatch counts for one. *)
Lemma rounds_executed_cons c cs s ss (l : list Event) :
  dispatch_rounds_from false (zip_with executed (c :: cs) (s :: ss) ++ l) =
  S (dispatch_rounds_from true l).
Proof. simpl. by rewrite rounds_in_round_executed. Qed.

(** Where the first request of a log sits. *)
Lemma split_at_first_request (D : list Event) q rest pre x post :
  requests D = [] -> is_created x = true ->
  D ++ q :: rest = pre ++ x :: post ->
  (pre = D /\ x = q /\ post = rest) \/
  (exists pre', pre = D ++ q :: pre' /\ rest = pre' ++ x :: post).
Proof.
  revert pre. induction D as [|d D IH]; intros pre HD Hx Heq.
  - destruct pre as [|p pre]; simpl in Heq; injection Heq as -> ->.
    + by left.
    + right. by exists pre.
  - unfold requests in HD. simpl in HD.
    destruct (is_created d) eqn:Hd; [done|].
    destruct pre as [|p pre]; simpl in Heq; injection Heq as -> Heq.
    + congruence.
    + destruct (IH pre HD Hx Heq) as [(-> & -> & ->)|(pre' & -> & ->)].
      * by left.
      * right. by exists pre'.
Qed.

(** A log with one raising entry at its end has no other. *)
Lemma raise_is_last (pre : list Event) ev e pre' ev' e' post' :
  Forall (fun ev => raised_in ev = None) pre ->
  raised_in ev = Some e ->
  pre ++ [ev] = pre' ++ ev' :: post' ->
  raised_in ev' = Some e' ->
  post' = [] /\ e' = e.
Proof.
  revert pre'. induction pre as [|p pre IH]; intros pre' Hpre Hev Heq Hev'.
  - destruct pre' as [|p' [|? ?]]; simpl in Heq; try done.
    injection Heq as <- <-. split; congruence.
  - apply Forall_cons in Hpre as [Hp Hpre].
    destruct pre' as [|p' pre']; simpl in Heq; injection Heq as -> Heq.
    + congruence.
    + by eapply IH.
Qed.

(** * Properties of the tool loop *)

Lemma set_messages_same api msgs : same_parameters (set_messages api msgs) api.
Proof. by repeat split. Qed.

Lemma Loop_set_messages api m0 n msgs r calls res :
  Loop (set_messages api m0) n msgs r calls res -> Loop api n msgs r calls res.
Proof.
  induction 1.
  - constructor.
  - by eapply loop_dispatch_raised.
  - by apply (loop_create_raised api).
  - by apply (loop_round api).
Qed.

Section ToolLoop.
Context {C T : Type}.
Implicit Types (self : AIGenerator C) (w : World C T).

(** The log of the tool loop has the shape [Loop]. *)
Lemma tool_loop_Loop self tool_manager rounds api msgs r w res w' calls :
  tool_loop self tool_manager rounds api msgs r w = (res, w', calls) ->
  Loop api (length rounds) msgs r calls res.
Proof.
  revert api msgs r w res w' calls.
  induction rounds as [|round_num rounds IH];
    intros api msgs r w res w' calls Hrun; simpl in Hrun.
  - injection Hrun as <- <- <-. constructor.
  - destruct (negb (stop_reason r =? "tool_use")%string
              || negb (truthy_obj tool_manager)).
    { injection Hrun as <- <- <-. constructor. }
    destruct tool_manager as [tm|].
    2:{ injection Hrun as <- <- <-. constructor. }
    unfold bind at 1 in Hrun. unfold _execute_tool_calls in Hrun.
    destruct (execute_blocks tm (content r) [] w) as [[res1 w1] calls1] eqn:Hexec.
    apply execute_blocks_calls in Hexec as [_ Hexec].
    destruct Hexec as [(ss & Hss & -> & ->)
                      |(before & c & rest & ss & t & e & Huses & Hss & _ & -> & ->)].
    2:{ injection Hrun as <- <- <-. simpl.
        eapply loop_dispatch_raised; [done|]. by eapply replies_length. }
    apply replies_length in Hss. simpl in Hrun.
    destruct (zip_with result_of (tool_uses (content r)) ss) as [|tr trs] eqn:Hres.
    { injection Hrun as <- <- <-.
      destruct (tool_uses (content r)), ss; try done. constructor. }
    unfold bind, messages_create in Hrun.
    destruct (create (client self) _ (client_state w1)) as [[r'|e] c'] eqn:Hcreate.
    + destruct (tool_loop self _ rounds _ _ r' _) as [[res2 w2] calls2] eqn:Hloop.
      injection Hrun as <- <- <-. apply IH in Hloop.
      apply Loop_set_messages in Hloop. rewrite <- Hres in Hloop.
      simpl. rewrite <- Hres. by apply (loop_round api).
    + injection Hrun as <- <- <-. rewrite <- Hres.
      by apply (loop_create_raised api).
Qed.

(** The log of [generate_response]: the first request, then the loop. *)
Lemma generate_response_calls self query history tool_defs tool_manager
    w res w' calls :
  generate_response self query history tool_defs tool_manager w
    = (res, w', calls) ->
  let api := initial_params self query history tool_defs in
  (exists e, calls = [Created api (Raised e)] /\ res = Raised e) \/
  (exists r calls' res',
     calls = Created api (Returned r) :: calls' /\
     Loop api MAX_TOOL_ROUNDS (messages api) r calls' res' /\
     res = match res' with
           | Returned final => Returned (extract_text (snd final))
           | Raised e => Raised e
           end).
Proof.
  intros Hrun api. unfold generate_response in Hrun. fold api in Hrun.
  unfold bind at 1 in Hrun. unfold messages_create in Hrun.
  destruct (create (client self) api (client_state w)) as [[r|e] c'] eqn:Hcreate.
  - right. unfold bind in Hrun.
    destruct (tool_loop self tool_manager _ api _ r _) as [[res1 w1] calls1] eqn:Hloop.
    apply tool_loop_Loop in Hloop. exists r, calls1, res1.
    destruct res1 as [final|e]; injection Hrun as <- <- <-;
      simpl; rewrite ?app_nil_r; done.
  - left. exists e. by injection Hrun as <- <- <-.
Qed.

End ToolLoop.

(** * What the shape of the log gives *)

Lemma Loop_requests_le api n msgs r calls res :
  Loop api n msgs r calls res -> (length (requests calls) <= n)%nat.
Proof.
  induction 1; rewrite ?requests_executed_app; simpl; lia.
Qed.

Lemma Loop_rounds_le api n msgs r calls res b :
  Loop api n msgs r calls res -> (dispatch_rounds_from b calls <= n)%nat.
Proof.
  intros HL. revert b. induction HL; intros b.
  - simpl. lia.
  - etrans; [apply rounds_executed_le|]. simpl. lia.
  - etrans; [apply rounds_executed_le|]. simpl. lia.
  - etrans; [apply rounds_executed_le|]. simpl.
    specialize (IHHL false). lia.
Qed.

(** Only the last call of a log can have raised, and then the loop raises
    the same. *)
Lemma Loop_raise_shape api n msgs r calls res :
  Loop api n msgs r calls res ->
  (Forall (fun ev => raised_in ev = None) calls /\
   exists final, res = Returned final) \/
  (exists pre ev e,
     calls = pre ++ [ev] /\ Forall (fun ev => raised_in ev = None) pre /\
     raised_in ev = Some e /\ res = Raised e).
Proof.
  induction 1 as [n msgs r|n msgs r before c rest ss e Huses Hlen
                 |n msgs r ss e Hlen|n msgs r ss r' calls res Hlen HL IH].
  - left. split; [constructor|by eexists].
  - right. eexists _, _, e. split; [done|].
    split; [apply no_raise_executed|done].
  - right. eexists _, _, e. split; [done|].
    split; [apply no_raise_executed|done].
  - destruct IH as [[Hall Hres]|(pre & ev & e & -> & Hpre & Hev & ->)].
    + left. split; [|done]. apply Forall_app. split; [apply no_raise_executed|].
      by constructor.
    + right.
      exists (zip_with executed (tool_uses (content r)) ss ++
                Created (set_messages api (msgs ++ round_messages r ss))
                  (Returned r') :: pre), ev, e.
      split; [by rewrite <- app_assoc|]. split; [|done].
      apply Forall_app. split; [apply no_raise_executed|]. by constructor.
Qed.

(** Every request of the loop is [api] up to its messages. *)
Lemma Loop_parameters api n msgs r calls res :
  Loop api n msgs r calls res ->
  forall req reply, In (Created req reply) calls -> same_parameters req api.
Proof.
  assert (Hzip : forall cs ss req reply,
            ~ In (Created req reply) (zip_with executed cs ss)).
  { induction cs as [|c cs IH]; intros [|s ss] req reply; simpl; try tauto.
    intros [Heq|Hin]; [done|]. by eapply IH. }
  induction 1; intros req reply Hin.
  - destruct Hin.
  - apply in_app_or in Hin as [Hin|[Hin|[]]]; [by apply Hzip in Hin|done].
  - apply in_app_or in Hin as [Hin|[Hin|[]]]; [by apply Hzip in Hin|].
    injection Hin as <- <-. apply set_messages_same.
  - apply in_app_or in Hin as [Hin|[Hin|Hin]]; [by apply Hzip in Hin| |by eauto].
    injection Hin as <- <-. apply set_messages_same.
Qed.

(** When the loop returns, the completion it returns is the one it entered
    with, or the reply of the last call of the log. *)
Lemma Loop_returned api n msgs r calls res msgs' r' :
  Loop api n msgs r calls res -> res = Returned (msgs', r') ->
  (calls = [] /\ msgs' = msgs /\ r' = r) \/
  (exists pre req,
     calls = pre ++ [Created req (Returned r')] /\ messages req = msgs').
Proof.
  induction 1 as [n msgs r|n msgs r before c rest ss e Huses Hlen
                 |n msgs r ss e Hlen|n msgs r ss r1 calls res Hlen HL IH];
    intros Hres; try done.
  - injection Hres as <- <-. by left.
  - right. destruct (IH Hres) as [(-> & -> & ->)|(pre & req & -> & Hreq)].
    + by eexists _, _.
    + exists (zip_with executed (tool_uses (content r)) ss ++
                Created (set_messages api (msgs ++ round_messages r ss))
                  (Returned r1) :: pre), req.
      split; [by rewrite <- app_assoc|done].
Qed.

(** A completion that arrives when no round is left ends the loop: it is
    the last call of the log and the completion the loop returns. *)
Lemma Loop_exhausted api n msgs r calls res cs req r' :
  Loop api n msgs r calls res ->
  requests calls = cs ++ [Created req (Returned r')] ->
  S (length cs) = n ->
  res = Returned (messages req, r') /\
  exists pre, calls = pre ++ [Created req (Returned r')].
Proof.
  intros HL. revert cs.
  induction HL as [n msgs r|n msgs r before c rest ss e Huses Hlen
                  |n msgs r ss e Hlen|n msgs r ss r1 calls res Hlen HL IH];
    intros cs Hreq Hn.
  - by destruct cs.
  - rewrite requests_executed_app in Hreq. by destruct cs.
  - rewrite requests_executed_app in Hreq. by destruct cs as [|? [|? ?]].
  - rewrite requests_executed_app in Hreq. simpl in Hreq.
    destruct cs as [|c cs]; simpl in Hreq.
    + injection Hreq as <- <- Hreq. injection Hn as <-.
      inversion HL; subst. split; [done|]. by eexists.
    + injection Hreq as <- Hreq. injection Hn as Hn.
      destruct (IH cs Hreq Hn) as [-> (pre & ->)]. split; [done|].
      exists (zip_with executed (tool_uses (content r)) ss ++
                Created (set_messages api (msgs ++ round_messages r ss))
                  (Returned r1) :: pre).
      by rewrite <- app_assoc.
Qed.

(** Between a completion and the next request lie the dispatches of the
    completion's tool-use blocks, in order, and the next request carries two
    more messages: the completion and the results. *)
Lemma Loop_consecutive api n msgs r calls res :
  Loop api n msgs r calls res ->
  forall req0 pre req1 r1 mid req2 reply2 post,
    messages req0 = msgs ->
    Created req0 (Returned r) :: calls
      = pre ++ Created req1 (Returned r1) :: mid ++ Created req2 reply2 :: post ->
    requests mid = [] ->
    exists ss,
      length ss = length (tool_uses (content r1)) /\
      mid = zip_with executed (tool_uses (content r1)) ss /\
      messages req2 = messages req1 ++ round_messages r1 ss.
Proof.
  induction 1 as [n msgs r|n msgs r before c rest ss e Huses Hlen
                 |n msgs r ss e Hlen|n msgs r ss r' calls res Hlen HL IH];
    intros req0 pre req1 r1 mid req2 reply2 post Hmsgs Heq Hmid;
    apply (split_at_first_request [] _ _ pre) in Heq; try done;
    destruct Heq as [(-> & Heq1 & Heq)|(pre' & -> & Heq)];
    try (injection Heq1 as <- <-); simpl in Heq.
  - by destruct mid.
  - by destruct pre'.
  - apply (f_equal requests) in Heq.
    rewrite requests_executed_app, requests_app in Heq. simpl in Heq.
    by destruct (requests mid).
  - apply (f_equal requests) in Heq.
    rewrite requests_executed_app, requests_app in Heq. simpl in Heq.
    by destruct (requests pre').
  - symmetry in Heq.
    apply split_at_first_request in Heq; [|apply requests_executed|done].
    destruct Heq as [(-> & Heq2 & _)|(pre'' & -> & _)].
    + injection Heq2 as -> _. exists ss. by rewrite Hmsgs.
    + rewrite requests_app in Hmid. simpl in Hmid.
      by destruct (requests (zip_with _ _ _)).
  - apply split_at_first_request in Heq; [|apply requests_executed|done].
    destruct Heq as [(_ & Heq2 & _)|(pre'' & _ & Heq)]; [done|].
    by destruct pre''.
  - symmetry in Heq.
    apply split_at_first_request in Heq; [|apply requests_executed|done].
    destruct Heq as [(-> & Heq2 & _)|(pre'' & -> & _)].
    + injection Heq2 as -> _. exists ss. by rewrite Hmsgs.
    + rewrite requests_app in Hmid. simpl in Hmid.
      by destruct (requests (zip_with _ _ _)).
  - apply split_at_first_request in Heq; [|apply requests_executed|done].
    destruct Heq as [(-> & Heq2 & Heq)|(pre'' & -> & Heq)].
    + injection Heq2 as -> ->.
      apply (IH (set_messages api (msgs ++ round_messages r ss)) []
               _ _ _ _ reply2 post); [done|simpl; by rewrite <- Heq|done].
    + apply (IH (set_messages api (msgs ++ round_messages r ss))
               (Created (set_messages api (msgs ++ round_messages r ss))
                  (Returned r') :: pre'') _ _ _ _ reply2 post);
        [done|simpl; by rewrite Heq|done].
Qed.

(** * Running the loop step by step *)

Section Steps.
Context {C T : Type}.
Implicit Types (self : AIGenerator C) (tm : Dispatcher T) (w : World C T).

(** When the dispatcher returns [ss] for the tool-use blocks, the results
    are built from them. *)
Lemma execute_blocks_replies tm blocks acc w ss t' :
  replies tm (manager_state w) (tool_uses blocks) ss t' ->
  execute_blocks tm blocks acc w =
    (Returned (acc ++ zip_with result_of (tool_uses blocks) ss),
     {| client_state := client_state w; manager_state := t' |},
     zip_with executed (tool_uses blocks) ss).
Proof.
  revert acc w ss.
  induction blocks as [|[text|id name input] blocks IH]; intros acc w ss Hss;
    simpl in *.
  - inversion Hss; subst. destruct w. simpl. by rewrite app_nil_r.
  - by apply IH.
  - inversion Hss as [|t c s t1 cs ss' t2 Hcall Hrest]; subst. simpl in Hcall.
    unfold bind, call_execute_tool. rewrite Hcall.
    rewrite (IH _ _ ss'); [|done]. simpl. by rewrite <- app_assoc.
Qed.

Lemma never_raises_replies tm t cs :
  never_raises tm -> exists ss t', replies tm t cs ss t'.
Proof.
  intros Hnr. revert t. induction cs as [|c cs IH]; intros t.
  - exists [], t. constructor.
  - destruct (Hnr (call_name c) (call_input c) t) as (s & t1 & Hcall).
    destruct (IH t1) as (ss & t' & Hss). exists (s :: ss), t'.
    by econstructor.
Qed.

(** The loop leaves at once when the completion does not ask for a tool. *)
Lemma tool_loop_not_requested self tool_manager rounds api msgs r w :
  stop_reason r <> "tool_use" ->
  tool_loop self tool_manager rounds api msgs r w = (Returned (msgs, r), w, []).
Proof.
  intros Hstop. destruct rounds; [done|]. simpl.
  by apply String.eqb_neq in Hstop as ->.
Qed.

(** ... when no dispatcher was handed in ... *)
Lemma tool_loop_no_manager self rounds api msgs r w :
  tool_loop self None rounds api msgs r w = (Returned (msgs, r), w, []).
Proof.
  destruct rounds; [done|]. simpl. by rewrite orb_true_r.
Qed.

(** ... when the range of rounds is used up ... *)
Lemma tool_loop_exhausted self tool_manager api msgs r w :
  tool_loop self tool_manager [] api msgs r w = (Returned (msgs, r), w, []).
Proof. done. Qed.

(** ... and when the completion has no tool-use block. *)
Lemma tool_loop_no_tool_use self tool_manager rounds api msgs r w :
  tool_uses (content r) = [] ->
  tool_loop self tool_manager rounds api msgs r w = (Returned (msgs, r), w, []).
Proof.
  intros Huses. destruct rounds; [done|]. simpl.
  destruct (negb _ || negb _); [done|]. destruct tool_manager as [tm|]; [|done].
  unfold bind, _execute_tool_calls.
  rewrite (execute_blocks_replies tm (content r) [] w [] (manager_state w)).
  - rewrite Huses. simpl. by destruct w.
  - rewrite Huses. constructor.
Qed.

(** One full round: the dispatcher returns [ss], the client replies [r']. *)
Lemma tool_loop_round self tm round_num rounds api msgs r w ss t' r' c' :
  stop_reason r = "tool_use" ->
  tool_uses (content r) <> [] ->
  replies tm (manager_state w) (tool_uses (content r)) ss t' ->
  create (client self) (set_messages api (msgs ++ round_messages r ss))
    (client_state w) = (Returned r', c') ->
  tool_loop self (Some tm) (round_num :: rounds) api msgs r w =
    match
      tool_loop self (Some tm) rounds
        (set_messages api (msgs ++ round_messages r ss))
        (msgs ++ round_messages r ss) r'
        {| client_state := c'; manager_state := t' |}
    with
    | (res, w2, calls2) =>
        (res, w2,
         zip_with executed (tool_uses (content r)) ss ++
           Created (set_messages api (msgs ++ round_messages r ss))
             (Returned r') :: calls2)
    end.
Proof.
  intros Hstop Huses Hss Hcreate. simpl.
  apply String.eqb_eq in Hstop as ->. simpl.
  unfold bind at 1. unfold _execute_tool_calls.
  rewrite (execute_blocks_replies tm (content r) [] w ss t' Hss). simpl.
  pose proof (replies_length _ _ _ _ _ Hss) as Hlen.
  destruct (tool_uses (content r)) as [|c cs] eqn:Hc; [done|].
  destruct ss as [|s ss]; [done|]. simpl.
  unfold bind, messages_create. simpl.
  unfold round_messages in Hcreate. rewrite Hc in Hcreate. simpl in Hcreate.
  rewrite Hcreate. unfold round_messages. rewrite Hc. simpl.
  by destruct (tool_loop _ _ _ _ _ _ _) as [[res w2] calls2].
Qed.


(** The first request, when the client replies [r]. *)
Lemma generate_response_first self query history tool_defs tool_manager w r c' :
  create (client self) (initial_params self query history tool_defs)
    (client_state w) = (Returned r, c') ->
  generate_response self query history tool_defs tool_manager w =
    match
      tool_loop self tool_manager (seq 0 MAX_TOOL_ROUNDS)
        (initial_params self query history tool_defs)
        (messages (initial_params self query history tool_defs)) r
        {| client_state := c'; manager_state := manager_state w |}
    with
    | (Returned final, w2, calls2) =>
        (Returned (extract_text (snd final)), w2,
         Created (initial_params self query history tool_defs) (Returned r)
           :: calls2)
    | (Raised e, w2, calls2) =>
        (Raised e, w2,
         Created (initial_params self query history tool_defs) (Returned r)
           :: calls2)
    end.
Proof.
  intros Hcreate. unfold generate_response, bind, messages_create.
  rewrite Hcreate.
  destruct (tool_loop _ _ _ _ _ _ _) as [[[final|e] w2] calls2]; simpl;
    by rewrite ?app_nil_r.
Qed.

End Steps.

(** * Clients and scripts *)

(** The dispatch of the blocks stops at the first call that raises. *)
Lemma execute_blocks_raises {C T : Type} (tm : Dispatcher T) blocks acc
    (w : World C T) before c rest ss t1 t2 e :
  tool_uses blocks = before ++ c :: rest ->
  replies tm (manager_state w) before ss t1 ->
  execute_tool tm (call_name c) (call_input c) t1 = (Raised e, t2) ->
  execute_blocks tm blocks acc w =
    (Raised e,
     {| client_state := client_state w; manager_state := t2 |},
     zip_with executed before ss ++
       [Executed (call_name c) (call_input c) (Raised e)]).
Proof.
  revert acc w before ss.
  induction blocks as [|[text|id name input] blocks IH];
    intros acc w before ss Huses Hss Hcall; simpl in *.
  - by destruct before.
  - by apply IH.
  - unfold bind, call_execute_tool.
    destruct before as [|b before]; simpl in Huses; injection Huses as <- Huses.
    + inversion Hss; subst. simpl in Hcall. by rewrite Hcall.
    + inversion Hss as [|t b' s t' cs ss' t'' Hb Hrest]; subst.
      simpl in Hb. rewrite Hb.
      by rewrite (IH _ {| client_state := client_state w;
                          manager_state := t' |} before ss' Huses Hrest Hcall).
Qed.


Lemma created_replies_app (l1 l2 : list Event) :
  created_replies (l1 ++ l2) = created_replies l1 ++ created_replies l2.
Proof. apply flat_map_app. Qed.

Lemma created_replies_executed (cs : list ToolCall) (ss : list string) :
  created_replies (zip_with executed cs ss) = [].
Proof.
  revert ss. induction cs as [|c cs IH]; intros [|s ss]; simpl; auto.
Qed.

(** The dispatch of the blocks does not look at the client. *)
Lemma execute_blocks_any_client {C C' T : Type} (tm : Dispatcher T) blocks acc
    (w w' : World C T) res calls (c : C') :
  execute_blocks tm blocks acc w = (res, w', calls) ->
  execute_blocks tm blocks acc
    {| client_state := c; manager_state := manager_state w |}
  = (res, {| client_state := c; manager_state := manager_state w' |}, calls)
  /\ created_replies calls = [].
Proof.
  intros Hrun. apply execute_blocks_calls in Hrun as [_ Hrun].
  destruct Hrun as [(ss & Hss & -> & ->)
                   |(before & c0 & rest & ss & t & e & Huses & Hss & Hc & -> & ->)].
  - split; [|apply created_replies_executed].
    by rewrite (execute_blocks_replies tm blocks acc _ ss (manager_state w')).
  - split.
    + by rewrite (execute_blocks_raises tm blocks acc _ before c0 rest ss t
                    (manager_state w') e).
    + by rewrite created_replies_app, created_replies_executed.
Qed.

(** The loop depends on the client through its replies only: run against
    the script of the replies it got, it makes the same calls and ends the
    same, with the rest of the script left. *)
Lemma tool_loop_replay {C T : Type} (self : AIGenerator C)
    (tool_manager : option (Dispatcher T)) rounds api msgs r
    (w w' : World C T) res calls m rest :
  tool_loop self tool_manager rounds api msgs r w = (res, w', calls) ->
  tool_loop (scripted_generator m) tool_manager rounds api msgs r
    (scripted (created_replies calls ++ rest) (manager_state w))
  = (res, scripted rest (manager_state w'), calls).
Proof.
  revert api msgs r w res w' calls.
  induction rounds as [|round_num rounds IH];
    intros api msgs r w res w' calls Hrun; simpl in Hrun |- *.
  - by injection Hrun as <- <- <-.
  - destruct (negb (stop_reason r =? "tool_use")%string
              || negb (truthy_obj tool_manager)).
    { by injection Hrun as <- <- <-. }
    destruct tool_manager as [tm|]; [|by injection Hrun as <- <- <-].
    unfold bind at 1 in Hrun. unfold bind at 1.
    unfold _execute_tool_calls in *.
    destruct (execute_blocks tm (content r) [] w) as [[res1 w1] calls1] eqn:Hexec.
    apply (execute_blocks_any_client _ _ _ _ _ _ _
             (created_replies calls ++ rest)) in Hexec as [Hexec Hnone].
    unfold scripted at 1. simpl manager_state at 1. rewrite Hexec. clear Hexec.
    destruct res1 as [[|tr trs]|e].
    + injection Hrun as <- <- <-. unfold ret. simpl. by rewrite !app_nil_r, Hnone.
    + unfold bind, messages_create in Hrun |- *. simpl client_state.
      destruct (create (client self) _ (client_state w1)) as [[r'|e] c'] eqn:Hc.
      * destruct (tool_loop self _ rounds _ _ r' _) as [[res2 w2] calls2] eqn:Hloop.
        injection Hrun as <- <- <-. apply IH in Hloop. simpl in Hloop.
        rewrite !created_replies_app, Hnone. simpl.
        unfold scripted in Hloop. by rewrite Hloop.
      * injection Hrun as <- <- <-.
        rewrite !created_replies_app, Hnone. by simpl.
    + injection Hrun as <- <- <-. by rewrite Hnone.
Qed.

Lemma generate_response_replay {C T : Type} (self : AIGenerator C)
    query history tool_defs (tool_manager : option (Dispatcher T))
    (w w' : World C T) res calls rest :
  generate_response self query history tool_defs tool_manager w
    = (res, w', calls) ->
  generate_response (scripted_generator (self_model self)) query history
    tool_defs tool_manager
    (scripted (created_replies calls ++ rest) (manager_state w))
  = (res, scripted rest (manager_state w'), calls).
Proof.
  unfold generate_response. intros Hrun.
  change (initial_params (scripted_generator (self_model self)) query history
            tool_defs)
    with (initial_params self query history tool_defs).
  set (api := initial_params self query history tool_defs) in *.
  remember (seq 0 MAX_TOOL_ROUNDS) as rounds eqn:Hrounds. clear Hrounds.
  unfold bind at 1 in Hrun. unfold bind at 1.
  unfold messages_create in Hrun |- *.
  destruct (create (client self) api (client_state w)) as [[r|e] c'] eqn:Hc.
  - unfold bind in Hrun |- *.
    destruct (tool_loop self _ rounds api _ r _) as [[res1 w1] calls1] eqn:Hloop.
    apply (tool_loop_replay _ _ _ _ _ _ _ _ _ _ (self_model self) rest)
      in Hloop.
    unfold scripted in Hloop |- *. simpl in Hloop |- *.
    destruct res1 as [final|e]; injection Hrun as <- <- <-;
      simpl; rewrite ?app_nil_r; rewrite Hloop; simpl; by rewrite ?app_nil_r.
  - by injection Hrun as <- <- <-.
Qed.

(** * The generator loop is bounded *)

(** C1: every invocation of [generate_response] ends, with an answer or an
    exception, after at most three LLM requests and at most
    [MAX_TOOL_ROUNDS] = 2 rounds of tool dispatch, whatever the client and
    the dispatcher reply.  When a third completion arrives, it is the last
    call of the invocation (none of its tool-use blocks is dispatched) and
    the answer is extracted from it: its first text block as it is, when it
    has one. *)
Theorem generate_response_bounded {C T : Type} (self : AIGenerator C)
    (query : string) (history : option string)
    (tool_defs : option (list ToolDefinition))
    (tool_manager : option (Dispatcher T)) (w : World C T) :
  exists res w' calls,
    generate_response self query history tool_defs tool_manager w
      = (res, w', calls) /\
    (length (requests calls) <= 3)%nat /\
    (dispatch_rounds calls <= MAX_TOOL_ROUNDS)%nat /\
    forall c1 c2 req3 r3,
      requests calls = [c1; c2; Created req3 (Returned r3)] ->
      res = Returned (extract_text r3) /\
      (forall text, first_text (content r3) = Some text -> res = Returned text) /\
      exists pre, calls = pre ++ [Created req3 (Returned r3)].
Proof.
  destruct (generate_response self query history tool_defs tool_manager w)
    as [[res w'] calls] eqn:Hrun.
  exists res, w', calls. split; [done|].
  apply generate_response_calls in Hrun.
  destruct Hrun as [(e & -> & ->)|(r & calls' & res' & -> & HL & ->)].
  - split; [simpl; lia|]. split; [cbv; lia|].
    intros c1 c2 req3 r3 Heq. discriminate Heq.
  - split; [|split].
    + pose proof (Loop_requests_le _ _ _ _ _ _ HL). unfold MAX_TOOL_ROUNDS in *.
      change (requests (Created ?a ?b :: calls'))
        with (Created a b :: requests calls'). simpl. lia.
    + apply (Loop_rounds_le _ _ _ _ _ _ false HL).
    + intros c1 c2 req3 r3 Hreq.
      change (requests (Created ?a ?b :: calls'))
        with (Created a b :: requests calls') in Hreq.
      injection Hreq as _ Hreq.
      destruct (Loop_exhausted _ _ _ _ _ _ [c2] req3 r3 HL Hreq eq_refl)
        as [-> (pre & ->)].
      split; [done|]. split.
      * intros text Htext. simpl. unfold extract_text. by rewrite Htext.
      * by exists (Created (initial_params self query history tool_defs)
                     (Returned r) :: pre).
Qed.

(** The scenario of [test_loop_stops_at_max_rounds]: the text of the third
    tool-requesting completion is the answer. *)
Lemma generate_response_bounded_witness :
  fst (fst (generate_response script_generator "q" None one_tool
              (Some (constant_dispatcher "r"))
              (scripted three_tool_requests tt)))
  = Returned "I want to search more".
Proof.
  destruct (generate_response_bounded script_generator "q" None one_tool
              (Some (constant_dispatcher "r"))
              (scripted three_tool_requests tt))
    as (res & w' & calls & Hrun & _ & _ & Hthird).
  rewrite Hrun. vm_compute in Hrun. injection Hrun as <- <- <-.
  exact (proj1 (Hthird _ _ _ _ eq_refl)).
Defined.

(** * Rounds followed by an answer *)

Lemma initial_params_messages {C : Type} (self : AIGenerator C) query history
    tool_defs :
  messages (initial_params self query history tool_defs)
  = [{| role := user; message_content := Text query |}].
Proof. unfold initial_params. by destruct (truthy_list tool_defs). Qed.

Lemma dispatches_executed_app cs ss (l : list Event) :
  dispatches (zip_with executed cs ss ++ l)
  = zip_with executed cs ss ++ dispatches l.
Proof.
  revert ss. induction cs as [|c cs IH]; intros [|s ss]; try done.
  simpl. unfold dispatches in *. simpl. by rewrite IH.
Qed.

(** C2, as stated, fails: rounds need a dispatcher, and one that returns.
    A completion that asks for a tool (N = 1) followed by an answer gives,
    without a dispatcher, one request and no round of dispatch, and the
    answer is taken from the first completion; with a dispatcher that raises
    for a call, one request and an exception. *)
Lemma rounds_need_a_dispatcher :
  (stop_reason resp1 = "tool_use" /\ tool_uses (content resp1) <> [] /\
   fst (fst no_dispatcher_run) = Returned fallback_message /\
   length (requests (snd no_dispatcher_run)) = 1%nat /\
   dispatch_rounds (snd no_dispatcher_run) = 0%nat /\
   client_state (snd (fst no_dispatcher_run))
   = [Returned (make_text_response "done")]) /\
  (stop_reason two_calls_resp = "tool_use" /\
   fst (fst failing_dispatch_run) = Raised "store unreachable" /\
   length (requests (snd failing_dispatch_run)) = 1%nat).
Proof. repeat split; try reflexivity. discriminate. Qed.

(** C2, amended: when a dispatcher is supplied and returns a string for
    every call of these rounds, and the client replies with N <= 2
    completions that ask for a tool and hold at least one tool-use block
    each, then with a completion that does not ask for a tool,
    [generate_response] issues exactly N+1 requests and runs exactly N
    rounds of dispatch: the log is the first request, then for every round
    the dispatches of the completion's tool-use blocks, in order, with the
    strings the dispatcher returned, and a request that carries two more
    messages.  The last request carries 1 + 2N messages: the query, then
    for every round the completion's full content as an assistant message
    and the tool results of the round as a user message.  The answer is
    extracted from the last completion; the rest of the script is left and
    the dispatcher is in the state its calls led to. *)
Theorem tool_rounds_then_answer {T : Type} (tm : Dispatcher T) (m : string)
    (query : string) (history : option string)
    (tool_defs : option (list ToolDefinition))
    (rs : list Response) (sss : list (list string)) (rf : Response)
    (rest : list (outcome Response)) (t t' : T) :
  (length rs <= MAX_TOOL_ROUNDS)%nat ->
  Forall (fun r => stop_reason r = "tool_use" /\ tool_uses (content r) <> [])
    rs ->
  stop_reason rf <> "tool_use" ->
  rounds_replies tm t rs sss t' ->
  let api := initial_params (scripted_generator m) query history tool_defs in
  let calls := expected_calls api rs sss rf in
  generate_response (scripted_generator m) query history tool_defs (Some tm)
    (scripted (map Returned rs ++ Returned rf :: rest) t)
    = (Returned (extract_text rf), scripted rest t', calls) /\
  length (requests calls) = S (length rs) /\
  dispatch_rounds calls = length rs /\
  dispatches calls
  = concat (zip_with
              (fun r ss => zip_with executed (tool_uses (content r)) ss)
              rs sss) /\
  exists pre req,
    calls = pre ++ [Created req (Returned rf)] /\
    length (messages req) = (1 + 2 * length rs)%nat /\
    messages req =
      {| role := user; message_content := Text query |}
        :: concat (zip_with round_messages rs sss).
Proof.
  intros Hlen Hrs Hrf Hrep api calls. subst calls.
  assert (Hmsgs : messages api
                  = [{| role := user; message_content := Text query |}])
    by apply initial_params_messages.
  destruct rs as [|r1 [|r2 [|r3 rs]]]; simpl in Hlen;
    [| | |unfold MAX_TOOL_ROUNDS in Hlen; lia].
  - (* no round *)
    inversion Hrep; subst.
    rewrite (generate_response_first _ _ _ _ _ _ rf rest); [|done].
    rewrite tool_loop_not_requested; [|done]. fold api. simpl.
    split; [done|]. split; [done|]. split; [done|]. split; [done|].
    exists [], api. by rewrite Hmsgs.
  - (* one round *)
    apply Forall_cons in Hrs as [[Hstop1 Huses1] _].
    inversion Hrep as [|? ? ss1 t1 ? sss' ? Hss1 Hrest]; subst.
    inversion Hrest; subst.
    rewrite (generate_response_first _ _ _ _ _ _ r1 (Returned rf :: rest));
      [|done].
    fold api. unfold MAX_TOOL_ROUNDS. simpl seq.
    rewrite (tool_loop_round _ tm _ _ _ _ r1 _ ss1 t' rf rest); try done.
    rewrite tool_loop_not_requested; [|done].
    pose proof (replies_length _ _ _ _ _ Hss1) as Hlen1.
    cbn [expected_calls].
    split; [done|]. split; [|split; [|split]].
    + change (requests (Created ?a ?b :: ?l)) with (Created a b :: requests l).
      by rewrite requests_executed_app.
    + unfold dispatch_rounds. simpl dispatch_rounds_from at 1.
      destruct (tool_uses (content r1)) as [|c cs]; [done|].
      destruct ss1 as [|s ss1]; [done|]. by rewrite rounds_executed_cons.
    + change (dispatches (Created ?a ?b :: ?l)) with (dispatches l).
      rewrite dispatches_executed_app. simpl. by rewrite app_nil_r.
    + exists (Created api (Returned r1)
                :: zip_with executed (tool_uses (content r1)) ss1),
        (set_messages api (messages api ++ round_messages r1 ss1)).
      split; [done|]. simpl. rewrite length_app, Hmsgs. done.
  - (* two rounds *)
    apply Forall_cons in Hrs as [[Hstop1 Huses1] Hrs].
    apply Forall_cons in Hrs as [[Hstop2 Huses2] _].
    inversion Hrep as [|? ? ss1 t1 ? sss1 ? Hss1 Hrest]; subst.
    inversion Hrest as [|? ? ss2 t2 ? sss2 ? Hss2 Hrest']; subst.
    inversion Hrest'; subst.
    rewrite (generate_response_first _ _ _ _ _ _ r1
               (Returned r2 :: Returned rf :: rest)); [|done].
    fold api. unfold MAX_TOOL_ROUNDS. simpl seq.
    rewrite (tool_loop_round _ tm _ _ _ _ r1 _ ss1 t1 r2
               (Returned rf :: rest)); try done.
    rewrite (tool_loop_round _ tm _ _ _ _ r2 _ ss2 t' rf rest); try done.
    rewrite tool_loop_exhausted.
    pose proof (replies_length _ _ _ _ _ Hss1) as Hlen1.
    pose proof (replies_length _ _ _ _ _ Hss2) as Hlen2.
    cbn [expected_calls].
    split; [done|]. split; [|split; [|split]].
    + change (requests (Created ?a ?b :: ?l)) with (Created a b :: requests l).
      rewrite requests_executed_app.
      change (requests (Created ?a ?b :: ?l)) with (Created a b :: requests l).
      by rewrite requests_executed_app.
    + unfold dispatch_rounds. simpl dispatch_rounds_from at 1.
      destruct (tool_uses (content r1)) as [|c cs]; [done|].
      destruct ss1 as [|s ss1]; [done|]. rewrite rounds_executed_cons.
      simpl dispatch_rounds_from at 1.
      destruct (tool_uses (content r2)) as [|c' cs']; [done|].
      destruct ss2 as [|s' ss2]; [done|]. by rewrite rounds_executed_cons.
    + change (dispatches (Created ?a ?b :: ?l)) with (dispatches l).
      rewrite dispatches_executed_app.
      change (dispatches (Created ?a ?b :: ?l)) with (dispatches l).
      rewrite dispatches_executed_app. simpl. by rewrite app_nil_r.
    + exists (Created api (Returned r1)
                :: zip_with executed (tool_uses (content r1)) ss1 ++
                   Created (set_messages api
                              (messages api ++ round_messages r1 ss1))
                     (Returned r2)
                   :: zip_with executed (tool_uses (content r2)) ss2),
        (set_messages
           (set_messages api (messages api ++ round_messages r1 ss1))
           ((messages api ++ round_messages r1 ss1) ++ round_messages r2 ss2)).
      split; [|split].
      * simpl. f_equal. exact (app_assoc _ (_ :: _) [_]).
      * simpl. rewrite !length_app, Hmsgs. done.
      * simpl. by rewrite Hmsgs.
Qed.

(** The scenario of [test_messages_accumulate_across_rounds], with the
    dispatcher of the test that returns [outline], then [content]: two
    rounds, three requests, and the answer of the third completion. *)
Lemma tool_rounds_then_answer_witness :
  exists calls,
    generate_response script_generator "user question" None one_tool
      (Some script_dispatcher)
      (scripted [Returned resp1; Returned resp2;
                 Returned (make_text_response "done")]
         [Returned "outline"; Returned "content"])
      = (Returned "done", scripted [] [], calls) /\
    length (requests calls) = 3%nat /\ dispatch_rounds calls = 2%nat /\
    dispatches calls
    = [Executed "get_course_outline" {["course_name" := "AI"]}
         (Returned "outline");
       Executed "search_course_content" {["query" := "deep learning"]}
         (Returned "content")].
Proof.
  destruct (tool_rounds_then_answer script_dispatcher "claude-test"
              "user question" None one_tool [resp1; resp2]
              [["outline"]; ["content"]] (make_text_response "done") []
              [Returned "outline"; Returned "content"] [])
    as (Hrun & Hreq & Hrounds & Hdispatches & _).
  - unfold MAX_TOOL_ROUNDS. simpl. lia.
  - repeat constructor; discriminate.
  - discriminate.
  - repeat econstructor.
  - eexists. split; [exact Hrun|]. split; [exact Hreq|].
    split; [exact Hrounds|exact Hdispatches].
Defined.

(** * The answer *)

Lemma first_text_spec blocks :
  match first_text blocks with
  | Some text =>
      exists before after,
        blocks = before ++ TextBlock text :: after /\ Forall no_text before
  | None => Forall no_text blocks
  end.
Proof.
  induction blocks as [|[text|id name input] blocks IH]; simpl.
  - constructor.
  - exists [], blocks. by split.
  - destruct (first_text blocks) as [text|].
    + destruct IH as (before & after & -> & Hbefore).
      exists (ToolUseBlock id name input :: before), after.
      split; [done|]. by constructor.
    + by constructor.
Qed.

(** C3, as stated, fails: the first text block of the final completion may
    hold the empty string, and the answer is then empty. *)
Lemma empty_text_block_answer :
  fst (fst empty_text_run) = Returned "" /\
  snd empty_text_run
  = [Created (initial_params script_generator "q" None None)
       (Returned {| stop_reason := "end_turn"; content := [TextBlock ""] |})].
Proof. split; reflexivity. Qed.

(** C3, amended: whenever [generate_response] returns, its answer comes from
    the final completion, the reply of the last call of the invocation: it
    is the text of the first text block in the order of the content (the
    empty string when that block holds it), and the fixed fallback message,
    which is not empty and asks to rephrase, when no block is a text block.
    So the answer is empty only when the first text block is. *)
Theorem answer_from_final_completion {C T : Type} (self : AIGenerator C)
    (query : string) (history : option string)
    (tool_defs : option (list ToolDefinition))
    (tool_manager : option (Dispatcher T)) (w w' : World C T)
    (answer : string) (calls : list Event) :
  generate_response self query history tool_defs tool_manager w
    = (Returned answer, w', calls) ->
  exists pre req final,
    calls = pre ++ [Created req (Returned final)] /\
    answer = extract_text final /\
    ((exists before after,
        content final = before ++ TextBlock answer :: after /\
        Forall no_text before)
     \/ (Forall no_text (content final) /\ answer = fallback_message)) /\
    fallback_message <> "" /\
    contains "rephrasing" fallback_message = true /\
    (answer = "" ->
     exists before after,
       content final = before ++ TextBlock "" :: after /\
       Forall no_text before).
Proof.
  intros Hrun. apply generate_response_calls in Hrun.
  destruct Hrun as [(e & _ & [=])|(r & calls' & res' & -> & HL & Hres)].
  destruct res' as [[msgs' final]|e]; [|done]. injection Hres as ->.
  assert (Hshape :
            (exists before after,
               content final
               = before ++ TextBlock (extract_text final) :: after /\
               Forall no_text before)
            \/ (Forall no_text (content final) /\
                extract_text final = fallback_message)).
  { unfold extract_text. pose proof (first_text_spec (content final)) as Hft.
    destruct (first_text (content final)) as [text|]; [by left|by right]. }
  assert (Hlast : exists pre req,
            Created (initial_params self query history tool_defs) (Returned r)
              :: calls' = pre ++ [Created req (Returned final)]).
  { destruct (Loop_returned _ _ _ _ _ _ _ _ HL eq_refl)
      as [(-> & _ & ->)|(pre & req & -> & _)].
    - by exists [], (initial_params self query history tool_defs).
    - by exists (Created (initial_params self query history tool_defs)
                   (Returned r) :: pre), req. }
  destruct Hlast as (pre & req & Hlast). exists pre, req, final. simpl.
  split; [done|]. split; [done|]. split; [done|]. split; [done|].
  split; [reflexivity|].
  intros Hempty. destruct Hshape as [Hshape|[_ Hfb]].
  - by rewrite Hempty in Hshape.
  - by rewrite Hfb in Hempty.
Qed.

(** The scenario of [test_fallback_when_no_text_block]: the third
    completion holds no text and the fallback message is the answer. *)
Lemma answer_from_final_completion_witness :
  fst (fst tool_only_run) = Returned fallback_message /\
  exists pre req final,
    snd tool_only_run = pre ++ [Created req (Returned final)] /\
    fallback_message = extract_text final.
Proof.
  assert (Hrun : tool_only_run
                 = (Returned fallback_message, snd (fst tool_only_run),
                    snd tool_only_run)) by reflexivity.
  split; [reflexivity|].
  destruct (answer_from_final_completion _ _ _ _ _ _ _ _ _ Hrun)
    as (pre & req & final & Hcalls & Hanswer & _).
  exists pre, req, final. split; [exact Hcalls|exact Hanswer].
Defined.

(** * A tool round *)

(** C4: in a tool round the tool-use blocks of the completion are
    dispatched in the order they appear; every block yields exactly one tool
    result, which carries the block's call identifier and the string the
    dispatcher returned for that call.  Between a completion and the next
    request of an invocation lie exactly these dispatches, and the next
    request extends the conversation by two messages: the completion's full
    content as one assistant message, then all the tool results of the round
    as one user message. *)
Theorem tool_round_protocol {C T : Type} :
  (forall (tm : Dispatcher T) (r : Response) (v : World C T) ss t',
      replies tm (manager_state v) (tool_uses (content r)) ss t' ->
      _execute_tool_calls r tm v =
        (Returned (zip_with result_of (tool_uses (content r)) ss),
         {| client_state := client_state v; manager_state := t' |},
         zip_with executed (tool_uses (content r)) ss)) /\
  (forall (tm : Dispatcher T) (r : Response) (v v' : World C T) results calls,
      _execute_tool_calls r tm v = (Returned results, v', calls) ->
      exists ss,
        replies tm (manager_state v) (tool_uses (content r)) ss
          (manager_state v') /\
        length results = length (tool_uses (content r)) /\
        results = zip_with result_of (tool_uses (content r)) ss /\
        calls = zip_with executed (tool_uses (content r)) ss) /\
  (forall (self : AIGenerator C) query history tool_defs
          (tool_manager : option (Dispatcher T)) (w w' : World C T) res calls
          pre req1 r1 mid req2 reply2 post,
      generate_response self query history tool_defs tool_manager w
        = (res, w', calls) ->
      calls = pre ++ Created req1 (Returned r1)
                :: mid ++ Created req2 reply2 :: post ->
      requests mid = [] ->
      exists ss,
        length ss = length (tool_uses (content r1)) /\
        mid = zip_with executed (tool_uses (content r1)) ss /\
        messages req2 =
          messages req1 ++
            [{| role := assistant; message_content := Blocks (content r1) |};
             {| role := user;
                message_content :=
                  ToolResults
                    (zip_with result_of (tool_uses (content r1)) ss) |}]).
Proof.
  split; [|split].
  - intros tm r v ss t' Hss. unfold _execute_tool_calls.
    by rewrite (execute_blocks_replies tm (content r) [] v ss t' Hss).
  - intros tm r v v' results calls Hrun. unfold _execute_tool_calls in Hrun.
    apply execute_blocks_calls in Hrun as [_ Hrun].
    destruct Hrun as [(ss & Hss & -> & [= ->])|(? & ? & ? & ? & ? & ? & Hrun)].
    + exists ss. split; [done|]. simpl. split; [|done].
      apply replies_length in Hss. rewrite length_zip_with. lia.
    + by destruct Hrun as (_ & _ & _ & _ & [=]).
  - intros self query history tool_defs tool_manager w w' res calls
      pre req1 r1 mid req2 reply2 post Hrun Hcalls Hmid.
    apply generate_response_calls in Hrun.
    destruct Hrun as [(e & -> & _)|(r & calls' & res' & -> & HL & _)].
    + by destruct pre as [|? [|? ?]].
    + by apply (Loop_consecutive _ _ _ _ _ _ HL
                  (initial_params self query history tool_defs)
                  pre req1 r1 mid req2 reply2 post).
Qed.

(** The scenario of [test_tool_result_sent_back_to_api]: the second request
    ends with the user message that holds the result of [call_456]. *)
Lemma tool_round_protocol_witness :
  (exists req1 req2,
     snd round_trip_run
     = [Created req1 (Returned resp_456);
        Executed "search_course_content" test_input
          (Returned "tool output text");
        Created req2 (Returned (make_text_response "Final answer"))] /\
     messages req2 =
       messages req1 ++
         [{| role := assistant; message_content := Blocks (content resp_456) |};
          {| role := user;
             message_content :=
               ToolResults [{| tool_use_id := "call_456";
                               result_content := "tool output text" |}] |}]) /\
  fst (fst (_execute_tool_calls resp_456
              (constant_dispatcher "tool output text")
              (scripted [] tt)))
  = Returned [{| tool_use_id := "call_456";
                 result_content := "tool output text" |}] /\
  exists ss,
    replies (constant_dispatcher "tool output text") tt
      (tool_uses (content resp_456)) ss tt /\
    length ss = 1%nat.
Proof.
  destruct (@tool_round_protocol (list (outcome Response)) unit)
    as (Hdispatch & Hresults & Hround).
  split; [|split].
  - eexists _, _. split; [reflexivity|].
    destruct (Hround script_generator "q" None one_tool
                (Some (constant_dispatcher "tool output text"))
                (scripted [Returned resp_456;
                           Returned (make_text_response "Final answer")] tt)
                _ _ _ [] _ resp_456
                [Executed "search_course_content" test_input
                   (Returned "tool output text")]
                _ _ [] eq_refl eq_refl eq_refl)
      as (ss & Hlen & Hmid & Hmsgs).
    destruct ss as [|s [|? ?]]; try discriminate Hlen.
    injection Hmid as <-. exact Hmsgs.
  - rewrite (Hdispatch (constant_dispatcher "tool output text") resp_456
               (scripted [] tt) ["tool output text"] tt); [reflexivity|].
    repeat econstructor.
  - destruct (Hresults (constant_dispatcher "tool output text") resp_456
                (scripted [] tt) _ _ _ eq_refl)
      as (ss & Hss & Hlen & _).
    exists ss. split; [exact Hss|]. apply replies_length in Hss. exact Hss.
Defined.

(** * A tool request without tool-use blocks *)

(** C5: a completion that signals a tool request but holds no tool-use
    block ends the loop where it stands: no call is made, nothing is
    appended to the conversation, nothing is raised, and the loop leaves with
    that completion.  When it is the first completion of an invocation, the
    invocation consists of that one request and the answer is extracted from
    its content; when it follows a round, no request follows it. *)
Theorem degenerate_tool_request {C T : Type} :
  (forall (self : AIGenerator C) (tool_manager : option (Dispatcher T))
          rounds api msgs r (w : World C T),
      stop_reason r = "tool_use" ->
      tool_uses (content r) = [] ->
      tool_loop self tool_manager rounds api msgs r w
        = (Returned (msgs, r), w, [])) /\
  (forall (self : AIGenerator C) query history tool_defs
          (tool_manager : option (Dispatcher T)) (w : World C T) r c',
      create (client self) (initial_params self query history tool_defs)
        (client_state w) = (Returned r, c') ->
      stop_reason r = "tool_use" ->
      tool_uses (content r) = [] ->
      generate_response self query history tool_defs tool_manager w
        = (Returned (extract_text r),
           {| client_state := c'; manager_state := manager_state w |},
           [Created (initial_params self query history tool_defs)
              (Returned r)])) /\
  (forall (tm : Dispatcher T) m query history tool_defs r1 r rest (t : T),
      never_raises tm ->
      stop_reason r1 = "tool_use" ->
      tool_uses (content r1) <> [] ->
      stop_reason r = "tool_use" ->
      tool_uses (content r) = [] ->
      exists w' calls pre req,
        generate_response (scripted_generator m) query history tool_defs
          (Some tm) (scripted (Returned r1 :: Returned r :: rest) t)
          = (Returned (extract_text r), w', calls) /\
        client_state w' = rest /\
        calls = pre ++ [Created req (Returned r)] /\
        length (requests calls) = 2%nat /\
        length (messages req) = 3%nat).
Proof.
  split; [|split].
  - intros. by apply tool_loop_no_tool_use.
  - intros self query history tool_defs tool_manager w r c' Hcreate _ Huses.
    rewrite (generate_response_first _ _ _ _ _ _ r c' Hcreate).
    by rewrite tool_loop_no_tool_use.
  - intros tm m query history tool_defs r1 r rest t Hnr Hstop1 Huses1 _ Huses.
    destruct (never_raises_replies tm t (tool_uses (content r1)) Hnr)
      as (ss1 & t1 & Hss1).
    rewrite (generate_response_first _ _ _ _ _ _ r1 (Returned r :: rest));
      [|done].
    unfold MAX_TOOL_ROUNDS. simpl seq.
    rewrite (tool_loop_round _ tm _ _ _ _ r1 _ ss1 t1 r rest); try done.
    rewrite tool_loop_no_tool_use; [|done].
    eexists _, _,
      (Created (initial_params (scripted_generator m) query history tool_defs)
         (Returned r1)
         :: zip_with executed (tool_uses (content r1)) ss1), _.
    split; [done|]. split; [done|]. split; [done|]. split.
    + change (requests (Created ?a ?b :: ?l)) with (Created a b :: requests l).
      by rewrite requests_executed_app.
    + simpl. by rewrite length_app, initial_params_messages.
Qed.

(** A first completion that signals a tool request with a text block only:
    one request, the text is the answer. *)
Lemma degenerate_tool_request_witness :
  generate_response script_generator "q" None one_tool
    (Some (constant_dispatcher "r")) (scripted [Returned degenerate_resp] tt)
  = (Returned "Nothing to call", scripted [] tt,
     [Created (initial_params script_generator "q" None one_tool)
        (Returned degenerate_resp)]) /\
  tool_loop script_generator (Some (constant_dispatcher "r")) [0; 1]%nat
    (initial_params script_generator "q" None one_tool) [] degenerate_resp
    (scripted [] tt)
  = (Returned ([], degenerate_resp), scripted [] tt, []) /\
  exists w' calls,
    generate_response script_generator "q" None one_tool
      (Some (constant_dispatcher "r"))
      (scripted [Returned resp1; Returned degenerate_resp] tt)
    = (Returned "Nothing to call", w', calls) /\
    length (requests calls) = 2%nat.
Proof.
  destruct (@degenerate_tool_request (list (outcome Response)) unit)
    as (Hloop & Hfirst & Hsecond).
  split; [|split].
  - exact (Hfirst script_generator "q" None one_tool
             (Some (constant_dispatcher "r"))
             (scripted [Returned degenerate_resp] tt) degenerate_resp []
             eq_refl eq_refl eq_refl).
  - exact (Hloop script_generator (Some (constant_dispatcher "r")) [0; 1]%nat
             _ [] degenerate_resp (scripted [] tt) eq_refl eq_refl).
  - destruct (Hsecond (constant_dispatcher "r") "claude-test" "q" None
                one_tool resp1
                degenerate_resp [] tt)
      as (w' & calls & pre & req & Hrun & _ & _ & Hreq & _).
    + intros name input t. by exists "r", t.
    + reflexivity.
    + discriminate.
    + reflexivity.
    + reflexivity.
    + exists w', calls. split; [exact Hrun|exact Hreq].
Defined.

(** * Invocations of a single request *)

(** C6, as stated, fails: the loop is guarded by the dispatcher, not by the
    tool definitions.  Without tool definitions but with a dispatcher, a
    first completion that asks for a tool is dispatched and a second request
    is issued; the answer is not the first text block of the first
    completion. *)
Lemma no_definitions_two_requests :
  first_text (content third_resp) = Some "I want to search more" /\
  fst (fst no_definitions_run) = Returned "Final answer" /\
  length (requests (snd no_definitions_run)) = 2%nat /\
  dispatches (snd no_definitions_run)
  = [Executed "search" {["query" := "x"]} (Returned "r")].
Proof. repeat split; reflexivity. Qed.

(** C6, amended: when no dispatcher is supplied, with or without tool
    definitions and whatever the stop condition of the completion, or when
    the first completion does not ask for a tool, [generate_response] issues
    exactly one request, dispatches nothing, and returns the first text block
    of that completion as it is (the fallback message when it has none). *)
Theorem single_request_answer {C T : Type} (self : AIGenerator C)
    (query : string) (history : option string)
    (tool_defs : option (list ToolDefinition))
    (tool_manager : option (Dispatcher T)) (w : World C T)
    (r : Response) (c' : C) :
  create (client self) (initial_params self query history tool_defs)
    (client_state w) = (Returned r, c') ->
  tool_manager = None \/ stop_reason r <> "tool_use" ->
  generate_response self query history tool_defs tool_manager w
    = (Returned (extract_text r),
       {| client_state := c'; manager_state := manager_state w |},
       [Created (initial_params self query history tool_defs) (Returned r)])
  /\ (forall text, first_text (content r) = Some text -> extract_text r = text)
  /\ (first_text (content r) = None -> extract_text r = fallback_message).
Proof.
  intros Hcreate Hguard.
  rewrite (generate_response_first _ _ _ _ _ _ r c' Hcreate).
  split; [|split].
  - destruct Hguard as [->|Hstop].
    + by rewrite tool_loop_no_manager.
    + by rewrite tool_loop_not_requested.
  - intros text Htext. unfold extract_text. by rewrite Htext.
  - intros Htext. unfold extract_text. by rewrite Htext.
Qed.

(** The scenario of [test_no_tool_manager_skips_tool_execution]: tool
    definitions, no dispatcher, a completion that asks for a tool. *)
Lemma single_request_answer_witness :
  generate_response script_generator "q" None one_tool
    (@None (Dispatcher unit)) (scripted [Returned third_resp] tt)
  = (Returned "I want to search more", scripted [] tt,
     [Created (initial_params script_generator "q" None one_tool)
        (Returned third_resp)]).
Proof.
  exact (proj1 (single_request_answer script_generator "q" None one_tool None
                  (scripted [Returned third_resp] tt) third_resp []
                  eq_refl (or_introl eq_refl))).
Defined.

(** * The parameters of the requests *)

(** Every request of an invocation is the first one up to its messages. *)
Lemma generate_response_parameters {C T : Type} (self : AIGenerator C)
    query history tool_defs (tool_manager : option (Dispatcher T))
    (w w' : World C T) res calls req reply :
  generate_response self query history tool_defs tool_manager w
    = (res, w', calls) ->
  In (Created req reply) calls ->
  same_parameters req (initial_params self query history tool_defs).
Proof.
  intros Hrun Hin. apply generate_response_calls in Hrun.
  destruct Hrun as [(e & -> & _)|(r & calls' & res' & -> & HL & _)].
  - destruct Hin as [[= <- _]|[]]. by repeat split.
  - destruct Hin as [[= <- _]|Hin]; [by repeat split|].
    by eapply Loop_parameters.
Qed.

(** C7: all requests of one invocation agree on everything but the
    messages: the model, temperature 0, the output bound of 800 tokens, the
    system context built from the history, and, when tool definitions were
    supplied, those same definitions with the automatic tool choice; without
    definitions no request carries tools or a tool choice. *)
Theorem request_parameters_fixed {C T : Type} (self : AIGenerator C)
    (query : string) (history : option string)
    (tool_defs : option (list ToolDefinition))
    (tool_manager : option (Dispatcher T)) (w w' : World C T)
    (res : outcome string) (calls : list Event) :
  generate_response self query history tool_defs tool_manager w
    = (res, w', calls) ->
  (forall req reply, In (Created req reply) calls ->
     model req = self_model self /\
     temperature req = 0 /\
     max_tokens req = 800 /\
     system req = system_content history /\
     (forall d ds, tool_defs = Some (d :: ds) ->
        tools req = Some (d :: ds) /\ tool_choice req = Some choice_auto) /\
     (tool_defs = None \/ tool_defs = Some [] ->
        tools req = None /\ tool_choice req = None)) /\
  (forall req reply req' reply',
     In (Created req reply) calls -> In (Created req' reply') calls ->
     same_parameters req req').
Proof.
  intros Hrun.
  set (api := initial_params self query history tool_defs) in *.
  assert (Hsame : forall req reply,
            In (Created req reply) calls -> same_parameters req api).
  { intros req reply Hin. by eapply generate_response_parameters. }
  split.
  - intros req reply Hin.
    destruct (Hsame req reply Hin) as (-> & -> & -> & -> & -> & ->).
    unfold api, initial_params.
    destruct tool_defs as [[|d ds]|]; simpl;
      (split; [done|]; split; [done|]; split; [done|]; split; [done|]; split;
       [intros d' ds' Heq; by simplify_eq|intros [Heq|Heq]; by simplify_eq]).
  - intros req reply req' reply' Hin Hin'.
    destruct (Hsame req reply Hin) as (? & ? & ? & ? & ? & ?).
    destruct (Hsame req' reply' Hin') as (? & ? & ? & ? & ? & ?).
    unfold same_parameters. repeat split; congruence.
Qed.

(** The scenario of [test_tools_included_in_all_api_calls]: both requests
    of a round trip carry the tool definitions and the automatic choice. *)
Lemma request_parameters_fixed_witness :
  Forall (fun ev =>
            match ev with
            | Created req _ =>
                tools req = one_tool /\ tool_choice req = Some choice_auto /\
                temperature req = 0 /\ max_tokens req = 800
            | Executed _ _ _ => True
            end) (snd round_trip_run) /\
  length (requests (snd round_trip_run)) = 2%nat.
Proof.
  assert (Hrun : round_trip_run
                 = (fst (fst round_trip_run), snd (fst round_trip_run),
                    snd round_trip_run)) by reflexivity.
  destruct (request_parameters_fixed _ _ _ _ _ _ _ _ _ Hrun) as [Hfixed _].
  split; [|reflexivity].
  apply Forall_forall. intros [req reply|name input reply] Hin; [|done].
  apply list_elem_of_In in Hin.
  destruct (Hfixed req reply Hin) as (_ & Htemp & Hmax & _ & Hdefs & _).
  destruct (Hdefs _ _ eq_refl) as [Htools Hchoice].
  by repeat split.
Defined.

(** * The system context *)

(** A history that is not empty is appended below its heading. *)
Lemma system_content_history (a : Ascii.ascii) (h : string) :
  system_content (Some (String a h))
  = SYSTEM_PROMPT +:+ nl +:+ nl +:+ "Previous conversation:" +:+ nl
      +:+ String a h.
Proof. done. Qed.

(** C9: an empty conversation history counts as none.  The system context
    is then the system prompt itself, which does not hold the heading of the
    previous conversation; the whole invocation is the one without history,
    and every request carries the system prompt as its system context. *)
Theorem empty_history_is_absent {C T : Type} (self : AIGenerator C)
    (query : string) (tool_defs : option (list ToolDefinition))
    (tool_manager : option (Dispatcher T)) (w : World C T) :
  system_content (Some "") = SYSTEM_PROMPT /\
  system_content None = SYSTEM_PROMPT /\
  contains "Previous conversation" SYSTEM_PROMPT = false /\
  generate_response self query (Some "") tool_defs tool_manager w
  = generate_response self query None tool_defs tool_manager w /\
  Forall (fun ev =>
            match ev with
            | Created req _ => system req = SYSTEM_PROMPT
            | Executed _ _ _ => True
            end)
    (snd (generate_response self query (Some "") tool_defs tool_manager w)).
Proof.
  split; [done|]. split; [done|]. split; [by vm_compute|]. split; [done|].
  destruct (generate_response self query (Some "") tool_defs tool_manager w)
    as [[res w'] calls] eqn:Hrun.
  apply Forall_forall. intros [req reply|name input reply] Hin; [|done].
  apply list_elem_of_In in Hin. simpl in Hin.
  destruct (generate_response_parameters _ _ _ _ _ _ _ _ _ _ _ Hrun Hin)
    as (_ & _ & _ & -> & _).
  unfold initial_params. by destruct (truthy_list tool_defs).
Qed.

(** * Exceptions of the dispatcher *)

(** C10: when the dispatcher raises for a tool-use block, the blocks after
    it are not dispatched and the exception leaves [_execute_tool_calls];
    [generate_response] makes no further call, neither a dispatch nor a
    request, and ends with that exception: the generator catches nothing. *)
Theorem dispatch_exception_propagates {C T : Type} :
  (forall (tm : Dispatcher T) (r : Response) (v : World C T)
          before c rest ss t1 t2 e,
      tool_uses (content r) = before ++ c :: rest ->
      replies tm (manager_state v) before ss t1 ->
      execute_tool tm (call_name c) (call_input c) t1 = (Raised e, t2) ->
      _execute_tool_calls r tm v =
        (Raised e,
         {| client_state := client_state v; manager_state := t2 |},
         zip_with executed before ss ++
           [Executed (call_name c) (call_input c) (Raised e)])) /\
  (forall (self : AIGenerator C) query history tool_defs
          (tool_manager : option (Dispatcher T)) (w w' : World C T) res calls
          pre name input e post,
      generate_response self query history tool_defs tool_manager w
        = (res, w', calls) ->
      calls = pre ++ Executed name input (Raised e) :: post ->
      post = [] /\ res = Raised e).
Proof.
  split.
  - intros tm r v before c rest ss t1 t2 e Huses Hss Hcall.
    by apply (execute_blocks_raises tm (content r) [] v before c rest ss t1).
  - intros self query history tool_defs tool_manager w w' res calls
      pre name input e post Hrun Hcalls.
    apply generate_response_calls in Hrun.
    destruct Hrun as [(e0 & -> & _)|(r & calls' & res' & -> & HL & ->)].
    { by destruct pre as [|? [|? ?]]. }
    apply Loop_raise_shape in HL.
    destruct HL as [[Hall _]|(pre' & ev & e' & -> & Hpre & Hev & ->)].
    + assert (Hnone : Forall (fun ev => raised_in ev = None)
                        (Created (initial_params self query history tool_defs)
                           (Returned r) :: calls'))
        by by constructor.
      rewrite Hcalls in Hnone. apply Forall_app in Hnone as [_ Hnone].
      by apply Forall_cons in Hnone as [[=] _].
    + destruct (raise_is_last
                  (Created (initial_params self query history tool_defs)
                     (Returned r) :: pre')
                  ev e' pre (Executed name input (Raised e)) e post)
        as [-> ->]; try done.
      by constructor.
Qed.

(** A completion with two tool-use blocks and a dispatcher that raises for
    the second: the log ends with that call, no second request is issued and
    the exception is the outcome. *)
Lemma dispatch_exception_propagates_witness :
  fst (fst failing_dispatch_run) = Raised "store unreachable" /\
  length (requests (snd failing_dispatch_run)) = 1%nat /\
  client_state (snd (fst failing_dispatch_run))
  = [Returned (make_text_response "unused")] /\
  fst (fst (_execute_tool_calls two_calls_resp script_dispatcher
              (scripted ([] : list (outcome Response))
                 [Returned "outline"; Raised "store unreachable"])))
  = Raised "store unreachable".
Proof.
  destruct (@dispatch_exception_propagates (list (outcome Response))
              (list (outcome string))) as [Hblocks Hrun].
  split; [|split; [reflexivity|split; [reflexivity|]]].
  - refine (proj2 (Hrun script_generator "q" None one_tool
                     (Some script_dispatcher) _ _ _ _
                     [Created (initial_params script_generator "q" None one_tool)
                        (Returned two_calls_resp);
                      Executed "get_course_outline" {["course_name" := "MCP"]}
                        (Returned "outline")]
                     "search_course_content" test_input "store unreachable" []
                     (eq_refl : failing_dispatch_run = (_, _, _)) eq_refl)).
  - rewrite (Hblocks script_dispatcher two_calls_resp _
               [{| call_id := "call_1"; call_name := "get_course_outline";
                   call_input := {["course_name" := "MCP"]} |}]
               {| call_id := "call_2"; call_name := "search_course_content";
                  call_input := test_input |}
               [] ["outline"] [Raised "store unreachable"] []
               "store unreachable"); [reflexivity|reflexivity| |reflexivity].
    repeat econstructor.
Defined.

(** * Unknown tools *)

Lemma prefix_app (needle post : string) :
  String.prefix needle (needle +:+ post) = true.
Proof.
  induction needle as [|a needle IH]; simpl; [by destruct post|].
  by destruct (Ascii.ascii_dec a a).
Qed.

Lemma contains_prefix (needle s : string) :
  String.prefix needle s = true -> contains needle s = true.
Proof. destruct s; simpl; by intros ->. Qed.

Lemma contains_app (needle pre post : string) :
  contains needle (pre +:+ needle +:+ post) = true.
Proof.
  induction pre as [|a pre IH].
  - apply contains_prefix. exact (prefix_app needle post).
  - change (String a pre +:+ needle +:+ post)
      with (String a (pre +:+ needle +:+ post)).
    cbn [contains]. rewrite IH. apply orb_true_r.
Qed.

Lemma string_app_assoc (a b c : string) : (a +:+ b) +:+ c = a +:+ b +:+ c.
Proof.
  induction a as [|x a IH]; [reflexivity|].
  change (String x ((a +:+ b) +:+ c) = String x (a +:+ b +:+ c)).
  by rewrite IH.
Qed.






Lemma last_round_messages (msgs : list Message) r ss :
  last (msgs ++ round_messages r ss)
  = Some {| role := user;
            message_content :=
              ToolResults (zip_with result_of (tool_uses (content r)) ss) |}.
Proof.
  unfold round_messages.
  change (msgs ++ [?a; ?b]) with (msgs ++ [a] ++ [b]).
  rewrite app_assoc. apply last_snoc.
Qed.



(** * The protocol of an invocation *)

Lemma Protocol_set_messages api m0 n msgs r calls res :
  Protocol (set_messages api m0) n msgs r calls res ->
  Protocol api n msgs r calls res.
Proof.
  induction 1.
  - constructor.
  - by eapply protocol_dispatch_raised.
  - by apply (protocol_create_raised api).
  - by apply (protocol_round api).
Qed.

(** The log of the tool loop follows the protocol. *)
Lemma tool_loop_Protocol {C T : Type} (self : AIGenerator C)
    (tool_manager : option (Dispatcher T)) rounds api msgs r
    (w w' : World C T) res calls :
  tool_loop self tool_manager rounds api msgs r w = (res, w', calls) ->
  Protocol api (length rounds) msgs r calls res.
Proof.
  revert api msgs r w res w' calls.
  induction rounds as [|round_num rounds IH];
    intros api msgs r w res w' calls Hrun; simpl in Hrun.
  - injection Hrun as <- <- <-. constructor.
  - destruct (stop_reason r =? "tool_use")%string eqn:Hstop.
    2:{ injection Hrun as <- <- <-. constructor. }
    apply String.eqb_eq in Hstop.
    destruct tool_manager as [tm|].
    2:{ injection Hrun as <- <- <-. constructor. }
    cbn [negb orb truthy_obj] in Hrun.
    unfold bind at 1 in Hrun. unfold _execute_tool_calls in Hrun.
    destruct (execute_blocks tm (content r) [] w) as [[res1 w1] calls1] eqn:Hexec.
    apply execute_blocks_calls in Hexec as [_ Hexec].
    destruct Hexec as [(ss & Hss & -> & ->)
                      |(before & c & rest & ss & t & e & Huses & Hss & _ & -> & ->)].
    2:{ injection Hrun as <- <- <-. simpl.
        eapply protocol_dispatch_raised; [done|done|].
        by eapply replies_length. }
    apply replies_length in Hss. simpl in Hrun.
    destruct (zip_with result_of (tool_uses (content r)) ss) as [|tr trs] eqn:Hres.
    { injection Hrun as <- <- <-.
      destruct (tool_uses (content r)), ss; try done. constructor. }
    assert (Huses : tool_uses (content r) <> []).
    { intros Hnil. by rewrite Hnil in Hres. }
    unfold bind, messages_create in Hrun.
    destruct (create (client self) _ (client_state w1)) as [[r'|e] c'] eqn:Hcreate.
    + destruct (tool_loop self _ rounds _ _ r' _) as [[res2 w2] calls2] eqn:Hloop.
      injection Hrun as <- <- <-. apply IH in Hloop.
      apply Protocol_set_messages in Hloop. rewrite <- Hres in Hloop.
      simpl. rewrite <- Hres. by apply (protocol_round api).
    + injection Hrun as <- <- <-. rewrite <- Hres.
      by apply (protocol_create_raised api).
Qed.

(** The log of an invocation: the first request, then the protocol. *)
Lemma generate_response_protocol {C T : Type} (self : AIGenerator C)
    query history tool_defs (tool_manager : option (Dispatcher T))
    (w w' : World C T) res calls :
  generate_response self query history tool_defs tool_manager w
    = (res, w', calls) ->
  let api := initial_params self query history tool_defs in
  (exists e, calls = [Created api (Raised e)] /\ res = Raised e) \/
  (exists r calls' res',
     calls = Created api (Returned r) :: calls' /\
     Protocol api MAX_TOOL_ROUNDS (messages api) r calls' res' /\
     res = match res' with
           | Returned final => Returned (extract_text (snd final))
           | Raised e => Raised e
           end).
Proof.
  intros Hrun api. unfold generate_response in Hrun. fold api in Hrun.
  unfold bind at 1 in Hrun. unfold messages_create in Hrun.
  destruct (create (client self) api (client_state w)) as [[r|e] c'] eqn:Hcreate.
  - right. unfold bind in Hrun.
    destruct (tool_loop self tool_manager _ api _ r _) as [[res1 w1] calls1] eqn:Hloop.
    apply tool_loop_Protocol in Hloop. exists r, calls1, res1.
    destruct res1 as [final|e]; injection Hrun as <- <- <-;
      simpl; rewrite ?app_nil_r; done.
  - left. exists e. by injection Hrun as <- <- <-.
Qed.

Lemma rounds_messages_app rds1 rds2 :
  rounds_messages (rds1 ++ rds2) = rounds_messages rds1 ++ rounds_messages rds2.
Proof. unfold rounds_messages. by rewrite map_app, concat_app. Qed.

(** The conversations of the requests of the loop grow round by round. *)
Lemma Protocol_conversations api n msgs r calls res :
  Protocol api n msgs r calls res ->
  exists rds,
    length rds = length (requests calls) /\ Forall round_ok rds /\
    forall i req reply,
      requests calls !! i = Some (Created req reply) ->
      messages req = msgs ++ rounds_messages (take (S i) rds).
Proof.
  induction 1 as [n msgs r|n msgs r before c rest ss e Hstop Huses Hlen
                 |n msgs r ss e Hstop Huses Hlen
                 |n msgs r ss r' calls res Hstop Huses Hlen HP IH];
    rewrite ?requests_executed_app.
  - exists []. by repeat split.
  - exists []. by repeat split.
  - exists [(r, ss)]. split; [done|]. split; [by repeat constructor|].
    intros [|i] req reply Hi; [|done]. injection Hi as <- _.
    unfold rounds_messages. simpl. by rewrite ?app_nil_r.
  - destruct IH as (rds & Hrds & Hok & Hconv).
    exists ((r, ss) :: rds).
    change (requests (Created ?a ?b :: calls))
      with (Created a b :: requests calls).
    split; [simpl; by rewrite Hrds|]. split; [by repeat constructor|].
    intros [|i] req reply Hi.
    + injection Hi as <- _. unfold rounds_messages. simpl.
      by rewrite ?app_nil_r.
    + simpl in Hi. rewrite (Hconv i req reply Hi).
      change (take (S (S i)) ((r, ss) :: rds))
        with ([(r, ss)] ++ take (S i) rds).
      by rewrite rounds_messages_app, app_assoc.
Qed.

(** The conversation of the request number [i] of an invocation, counted
    from 0: the query, then the messages of [i] completed rounds. *)
Lemma generate_response_conversations {C T : Type} (self : AIGenerator C)
    query history tool_defs (tool_manager : option (Dispatcher T))
    (w w' : World C T) res calls :
  generate_response self query history tool_defs tool_manager w
    = (res, w', calls) ->
  exists rds,
    S (length rds) = length (requests calls) /\ Forall round_ok rds /\
    forall i req reply,
      requests calls !! i = Some (Created req reply) ->
      messages req =
        {| role := user; message_content := Text query |}
          :: rounds_messages (take i rds).
Proof.
  intros Hrun. apply generate_response_protocol in Hrun.
  destruct Hrun as [(e & -> & _)|(r & calls' & res' & -> & HP & _)].
  - exists []. split; [done|]. split; [done|].
    intros [|i] req reply Hi; [|done]. injection Hi as <- _.
    by rewrite initial_params_messages.
  - apply Protocol_conversations in HP as (rds & Hrds & Hok & Hconv).
    exists rds.
    change (requests (Created ?a ?b :: calls'))
      with (Created a b :: requests calls').
    split; [simpl; by rewrite Hrds|]. split; [done|].
    intros [|i] req reply Hi.
    + injection Hi as <- _. by rewrite initial_params_messages.
    + simpl in Hi. rewrite (Hconv i req reply Hi).
      by rewrite initial_params_messages.
Qed.

(** * The conversation sent with each request *)

Lemma rounds_messages_length rds :
  length (rounds_messages rds) = (2 * length rds)%nat.
Proof.
  induction rds as [|rd rds IH]; [done|].
  change (rounds_messages (rd :: rds))
    with (round_messages (fst rd) (snd rd) ++ rounds_messages rds).
  rewrite length_app, IH. simpl. lia.
Qed.

Lemma rounds_messages_roles rds :
  map role (rounds_messages rds)
  = concat (replicate (length rds) [assistant; user]).
Proof.
  induction rds as [|rd rds IH]; [done|].
  change (rounds_messages (rd :: rds))
    with (round_messages (fst rd) (snd rd) ++ rounds_messages rds).
  rewrite map_app, IH. done.
Qed.

Lemma result_ids (cs : list ToolCall) (ss : list string) :
  length ss = length cs ->
  map tool_use_id (zip_with result_of cs ss) = map call_id cs.
Proof.
  revert ss. induction cs as [|c cs IH]; intros [|s ss] Hlen; try done.
  simpl. f_equal. apply IH. by injection Hlen.
Qed.

Lemma rounds_messages_answered rds :
  Forall round_ok rds -> answered (rounds_messages rds) = true.
Proof.
  induction 1 as [|[r ss] rds (Hstop & Huses & Hlen) Hrds IH]; [done|].
  change (rounds_messages ((r, ss) :: rds))
    with (round_messages r ss ++ rounds_messages rds).
  simpl in *. unfold round_messages.
  pose proof (result_ids _ _ Hlen) as Hids.
  destruct (zip_with result_of (tool_uses (content r)) ss) as [|tr trs] eqn:Hzip.
  - destruct (tool_uses (content r)), ss; done.
  - simpl. rewrite IH, andb_true_r. by apply bool_decide_eq_true.
Qed.

Lemma take_le_app {A : Type} (l : list A) (i j : nat) :
  (i <= j)%nat -> exists ext, take j l = take i l ++ ext.
Proof.
  revert i j. induction l as [|x l IH]; intros i j Hij.
  - exists []. by rewrite !take_nil.
  - destruct i as [|i].
    + by exists (take j (x :: l)).
    + destruct j as [|j]; [lia|].
      destruct (IH i j) as (ext & Hext); [lia|].
      exists ext. simpl. by rewrite Hext.
Qed.

(** X1: the request number [i] of an invocation (counted from 0) carries
    the raw query as its first message, a user message, and 1 + 2i messages
    in all, whose roles alternate: user, then assistant and user for every
    round completed so far.  So every conversation sent starts and ends
    with a user message. *)
Theorem request_conversation_shape {C T : Type} (self : AIGenerator C)
    (query : string) (history : option string)
    (tool_defs : option (list ToolDefinition))
    (tool_manager : option (Dispatcher T)) (w w' : World C T)
    (res : outcome string) (calls : list Event)
    (i : nat) (req : Request) (reply : outcome Response) :
  generate_response self query history tool_defs tool_manager w
    = (res, w', calls) ->
  requests calls !! i = Some (Created req reply) ->
  messages req !! 0%nat
    = Some {| role := user; message_content := Text query |} /\
  length (messages req) = (1 + 2 * i)%nat /\
  map role (messages req) = alternating i /\
  (exists m, last (messages req) = Some m /\ role m = user).
Proof.
  intros Hrun Hi.
  destruct (generate_response_conversations _ _ _ _ _ _ _ _ _ Hrun)
    as (rds & Hlen & _ & Hconv).
  rewrite (Hconv i req reply Hi).
  assert (Htake : length (take i rds) = i).
  { apply lookup_lt_Some in Hi. rewrite length_take. lia. }
  assert (Hroles : map role
                     ({| role := user; message_content := Text query |}
                        :: rounds_messages (take i rds)) = alternating i).
  { simpl. by rewrite rounds_messages_roles, Htake. }
  split; [done|]. split; [|split; [done|]].
  - simpl. by rewrite rounds_messages_length, Htake.
  - clear Hconv Hroles.
    induction (take i rds) as [|[r ss] rds' _] using rev_ind.
    + by eexists.
    + rewrite rounds_messages_app.
      change (rounds_messages [(r, ss)]) with (round_messages r ss ++ []).
      rewrite app_nil_r, app_comm_cons, last_round_messages. by eexists.
Qed.

(** The third request of two rounds carries five messages. *)
Lemma request_conversation_shape_witness :
  exists req reply,
    requests (snd two_rounds_run) !! 2%nat = Some (Created req reply) /\
    length (messages req) = 5%nat /\
    map role (messages req) = [user; assistant; user; assistant; user].
Proof.
  assert (Hrun : two_rounds_run
                 = (fst (fst two_rounds_run), snd (fst two_rounds_run),
                    snd two_rounds_run)) by reflexivity.
  eexists _, _. split; [reflexivity|].
  destruct (request_conversation_shape _ _ _ _ _ _ _ _ _ 2%nat _ _ Hrun
              eq_refl) as (_ & Hlen & Hroles & _).
  split; [exact Hlen|exact Hroles].
Defined.

(** X2: in the conversation of every request, the messages after the query
    come in pairs: an assistant message holding the content of a
    completion, then a user message holding at least one tool result, and
    the identifiers of these results are those of the tool-use blocks of
    the assistant message just before, in the same order.  No tool result
    is sent without its request, and no empty batch of results is sent. *)
Theorem results_answer_tool_uses {C T : Type} (self : AIGenerator C)
    (query : string) (history : option string)
    (tool_defs : option (list ToolDefinition))
    (tool_manager : option (Dispatcher T)) (w w' : World C T)
    (res : outcome string) (calls : list Event)
    (i : nat) (req : Request) (reply : outcome Response) :
  generate_response self query history tool_defs tool_manager w
    = (res, w', calls) ->
  requests calls !! i = Some (Created req reply) ->
  exists tail,
    messages req = {| role := user; message_content := Text query |} :: tail /\
    answered tail = true.
Proof.
  intros Hrun Hi.
  destruct (generate_response_conversations _ _ _ _ _ _ _ _ _ Hrun)
    as (rds & _ & Hok & Hconv).
  exists (rounds_messages (take i rds)). split; [by apply (Hconv i req reply)|].
  apply rounds_messages_answered. by apply Forall_take.
Qed.

Lemma results_answer_tool_uses_witness :
  exists req reply tail,
    requests (snd two_rounds_run) !! 2%nat = Some (Created req reply) /\
    messages req
    = {| role := user; message_content := Text "user question" |} :: tail /\
    answered tail = true /\ length tail = 4%nat.
Proof.
  assert (Hrun : two_rounds_run
                 = (fst (fst two_rounds_run), snd (fst two_rounds_run),
                    snd two_rounds_run)) by reflexivity.
  destruct (results_answer_tool_uses _ _ _ _ _ _ _ _ _ 2%nat _ _ Hrun eq_refl)
    as (tail & Hmsgs & Hanswered).
  eexists _, _, tail. split; [reflexivity|].
  split; [exact Hmsgs|]. split; [exact Hanswered|].
  by injection Hmsgs as <-.
Defined.

(** X3: the conversation is append-only: within one invocation, the
    messages of an earlier request are a prefix of the messages of every
    later request. *)
Theorem conversation_append_only {C T : Type} (self : AIGenerator C)
    (query : string) (history : option string)
    (tool_defs : option (list ToolDefinition))
    (tool_manager : option (Dispatcher T)) (w w' : World C T)
    (res : outcome string) (calls : list Event)
    (i j : nat) (req1 req2 : Request) (reply1 reply2 : outcome Response) :
  generate_response self query history tool_defs tool_manager w
    = (res, w', calls) ->
  (i <= j)%nat ->
  requests calls !! i = Some (Created req1 reply1) ->
  requests calls !! j = Some (Created req2 reply2) ->
  messages req1 `prefix_of` messages req2.
Proof.
  intros Hrun Hij Hi Hj.
  destruct (generate_response_conversations _ _ _ _ _ _ _ _ _ Hrun)
    as (rds & _ & _ & Hconv).
  rewrite (Hconv i req1 reply1 Hi), (Hconv j req2 reply2 Hj).
  destruct (take_le_app rds i j Hij) as (ext & ->).
  exists (rounds_messages ext). by rewrite rounds_messages_app.
Qed.

Lemma conversation_append_only_witness :
  exists req1 reply1 req2 reply2,
    requests (snd two_rounds_run) !! 1%nat = Some (Created req1 reply1) /\
    requests (snd two_rounds_run) !! 2%nat = Some (Created req2 reply2) /\
    messages req1 `prefix_of` messages req2 /\
    length (messages req1) = 3%nat.
Proof.
  assert (Hrun : two_rounds_run
                 = (fst (fst two_rounds_run), snd (fst two_rounds_run),
                    snd two_rounds_run)) by reflexivity.
  eexists _, _, _, _. split; [reflexivity|]. split; [reflexivity|].
  split; [|reflexivity].
  refine (conversation_append_only _ _ _ _ _ _ _ _ _ 1%nat 2%nat _ _ _ _
            Hrun _ eq_refl eq_refl).
  lia.
Defined.

(** * What is dispatched, and when *)

Lemma tool_uses_In_inv (c : ToolCall) blocks :
  In c (tool_uses blocks) ->
  In (ToolUseBlock (call_id c) (call_name c) (call_input c)) blocks.
Proof.
  induction blocks as [|[text|id name input] blocks IH]; simpl.
  - done.
  - intros Hin. right. by apply IH.
  - intros [<-|Hin]; [by left|]. right. by apply IH.
Qed.

Lemma requested_executed r cs ss rest :
  stop_reason r = "tool_use" ->
  (forall c, In c cs -> In c (tool_uses (content r))) ->
  dispatches_requested (Some r) rest ->
  dispatches_requested (Some r) (zip_with executed cs ss ++ rest).
Proof.
  intros Hstop. revert ss.
  induction cs as [|c cs IH]; intros [|s ss] Hcs Hrest; try done.
  simpl. split.
  - exists r, (call_id c). split; [done|]. split; [done|].
    apply tool_uses_In_inv, Hcs. by left.
  - apply IH; [|done]. intros c' Hc'. apply Hcs. by right.
Qed.

Lemma Protocol_requested api n msgs r calls res :
  Protocol api n msgs r calls res -> dispatches_requested (Some r) calls.
Proof.
  induction 1 as [n msgs r|n msgs r before c rest ss e Hstop Huses Hlen
                 |n msgs r ss e Hstop Huses Hlen
                 |n msgs r ss r' calls res Hstop Huses Hlen HP IH].
  - done.
  - apply requested_executed; [done| |].
    + intros c' Hc'. rewrite Huses. apply in_or_app. by left.
    + simpl. split; [|done]. exists r, (call_id c).
      split; [done|]. split; [done|].
      apply tool_uses_In_inv. rewrite Huses. apply in_or_app. right. by left.
  - by apply requested_executed.
  - by apply requested_executed.
Qed.

Lemma requested_latest current pre name input reply post :
  dispatches_requested current (pre ++ Executed name input reply :: post) ->
  exists r id,
    (last (completions pre) = Some r \/
     (completions pre = [] /\ current = Some r)) /\
    stop_reason r = "tool_use" /\
    In (ToolUseBlock id name input) (content r).
Proof.
  revert current.
  induction pre as [|[req [r0|e]|name' input' reply'] pre IH];
    intros current Hreq; simpl in Hreq.
  - destruct Hreq as [(r & id & Hcur & Hstop & Hin) _].
    exists r, id. split; [by right|done].
  - destruct (IH _ Hreq) as (r & id & Hlast & Hrest).
    exists r, id. split; [|done]. left.
    change (completions (Created req (Returned r0) :: pre))
      with (r0 :: completions pre).
    destruct Hlast as [Hlast|[Hnil [= ->]]].
    + destruct (completions pre); [done|]. by rewrite last_cons, Hlast.
    + by rewrite Hnil.
  - destruct (IH _ Hreq) as (r & id & [Hlast|[_ [=]]] & Hrest).
    exists r, id. split; [by left|done].
  - destruct Hreq as [_ Hreq].
    destruct (IH _ Hreq) as (r & id & Hlast & Hrest).
    exists r, id. split; [|done]. done.
Qed.

(** X4: a tool is dispatched only on request: every dispatch of an
    invocation is the call, by name and arguments, of a tool-use block of
    the completion received last before it, and that completion signalled
    a tool request.  A completion with another stop condition never
    triggers a dispatch, whatever blocks it holds. *)
Theorem dispatch_only_on_request {C T : Type} (self : AIGenerator C)
    (query : string) (history : option string)
    (tool_defs : option (list ToolDefinition))
    (tool_manager : option (Dispatcher T)) (w w' : World C T)
    (res : outcome string) (calls pre post : list Event)
    (name : string) (input : gmap string string) (reply : outcome string) :
  generate_response self query history tool_defs tool_manager w
    = (res, w', calls) ->
  calls = pre ++ Executed name input reply :: post ->
  exists r id,
    last (completions pre) = Some r /\
    stop_reason r = "tool_use" /\
    In (ToolUseBlock id name input) (content r).
Proof.
  intros Hrun Hcalls. apply generate_response_protocol in Hrun.
  assert (Hreq : dispatches_requested None calls).
  { destruct Hrun as [(e & -> & _)|(r & calls' & res' & -> & HP & _)];
      [done|]. simpl. by eapply Protocol_requested. }
  rewrite Hcalls in Hreq.
  destruct (requested_latest _ _ _ _ _ _ Hreq)
    as (r & id & [Hlast|[_ [=]]] & Hrest).
  by exists r, id.
Qed.

(** The second dispatch of two rounds calls the block of the second
    completion. *)
Lemma dispatch_only_on_request_witness :
  exists pre reply post r id,
    snd two_rounds_run
    = pre ++ Executed "search_course_content" {["query" := "deep learning"]}
               reply :: post /\
    length pre = 3%nat /\
    last (completions pre) = Some r /\
    stop_reason r = "tool_use" /\
    In (ToolUseBlock id "search_course_content"
          {["query" := "deep learning"]}) (content r).
Proof.
  assert (Hrun : two_rounds_run
                 = (fst (fst two_rounds_run), snd (fst two_rounds_run),
                    snd two_rounds_run)) by reflexivity.
  assert (Hcalls : exists pre reply post,
            snd two_rounds_run
            = pre ++ Executed "search_course_content"
                       {["query" := "deep learning"]} reply :: post /\
            length pre = 3%nat).
  { eexists [_; _; _], _, _. split; reflexivity. }
  destruct Hcalls as (pre & reply & post & Hcalls & Hpre).
  destruct (dispatch_only_on_request _ _ _ _ _ _ _ _ _ _ _ _ _ _ Hrun Hcalls)
    as (r & id & Hlast & Hstop & Hin).
  by exists pre, reply, post, r, id.
Defined.

(** * Requests and rounds of dispatch *)

Lemma rounds_executed_nonempty cs ss (l : list Event) :
  cs <> [] -> length ss = length cs ->
  dispatch_rounds_from false (zip_with executed cs ss ++ l)
  = S (dispatch_rounds_from true l).
Proof.
  intros Hcs Hlen. destruct cs as [|c cs]; [done|].
  destruct ss as [|s ss]; [done|]. apply rounds_executed_cons.
Qed.

Lemma rounds_executed_raised cs ss name input e :
  dispatch_rounds_from false
    (zip_with executed cs ss ++ [Executed name input (Raised e)]) = 1%nat.
Proof.
  destruct cs as [|c cs]; [done|]. destruct ss as [|s ss]; [done|].
  by rewrite rounds_executed_cons.
Qed.

Lemma Protocol_rounds api n msgs r calls res :
  Protocol api n msgs r calls res ->
  (length (requests calls) <= dispatch_rounds_from false calls)%nat /\
  (dispatch_rounds_from false calls <= S (length (requests calls)))%nat /\
  (forall final, res = Returned final ->
     dispatch_rounds_from false calls = length (requests calls)).
Proof.
  induction 1 as [n msgs r|n msgs r before c rest ss e Hstop Huses Hlen
                 |n msgs r ss e Hstop Huses Hlen
                 |n msgs r ss r' calls res Hstop Huses Hlen HP IH].
  - simpl. split; [lia|]. split; [lia|done].
  - rewrite rounds_executed_raised, requests_executed_app. simpl.
    split; [lia|]. split; [lia|done].
  - rewrite rounds_executed_nonempty, requests_executed_app by done. simpl.
    split; [lia|]. split; [lia|done].
  - rewrite rounds_executed_nonempty, requests_executed_app by done.
    change (requests (Created ?a ?b :: calls))
      with (Created a b :: requests calls).
    simpl. destruct IH as (Hle & Hge & Heq).
    split; [lia|]. split; [lia|]. intros final Hres. by rewrite (Heq final).
Qed.

(** X5: the LLM is asked again only after new tool results: every request
    after the first follows a round of at least one dispatch, so an
    invocation has at most one request more than rounds of dispatch and
    never fewer requests than rounds.  An invocation that returns an answer
    has made exactly one request more than rounds of dispatch. *)
Theorem requests_follow_dispatch {C T : Type} (self : AIGenerator C)
    (query : string) (history : option string)
    (tool_defs : option (list ToolDefinition))
    (tool_manager : option (Dispatcher T)) (w w' : World C T)
    (res : outcome string) (calls : list Event) :
  generate_response self query history tool_defs tool_manager w
    = (res, w', calls) ->
  (length (requests calls) <= S (dispatch_rounds calls))%nat /\
  (dispatch_rounds calls <= length (requests calls))%nat /\
  (forall answer, res = Returned answer ->
     length (requests calls) = S (dispatch_rounds calls)).
Proof.
  intros Hrun. apply generate_response_protocol in Hrun.
  destruct Hrun as [(e & -> & ->)|(r & calls' & res' & -> & HP & ->)].
  - split; [cbv; lia|]. split; [cbv; lia|done].
  - apply Protocol_rounds in HP as (Hle & Hge & Heq).
    change (requests (Created ?a ?b :: calls'))
      with (Created a b :: requests calls').
    unfold dispatch_rounds. simpl.
    split; [lia|]. split; [lia|].
    intros answer Hres. destruct res' as [final|e]; [|done].
    by rewrite (Heq final).
Qed.

Lemma requests_follow_dispatch_witness :
  length (requests (snd two_rounds_run))
  = S (dispatch_rounds (snd two_rounds_run)) /\
  (dispatch_rounds (snd failing_dispatch_run)
   <= length (requests (snd failing_dispatch_run)))%nat /\
  dispatch_rounds (snd two_rounds_run) = 2%nat /\
  dispatch_rounds (snd failing_dispatch_run) = 1%nat.
Proof.
  assert (Hrun : two_rounds_run
                 = (Returned "done", snd (fst two_rounds_run),
                    snd two_rounds_run)) by reflexivity.
  assert (Hfail : failing_dispatch_run
                  = (fst (fst failing_dispatch_run),
                     snd (fst failing_dispatch_run),
                     snd failing_dispatch_run)) by reflexivity.
  destruct (requests_follow_dispatch _ _ _ _ _ _ _ _ _ Hrun) as (_ & _ & Heq).
  destruct (requests_follow_dispatch _ _ _ _ _ _ _ _ _ Hfail) as (_ & Hge & _).
  split; [exact (Heq "done" eq_refl)|].
  split; [exact Hge|]. split; reflexivity.
Defined.

(** * The number of dispatches *)





(** * Exceptions of the client, and none of its own *)

(** X7: a failure of the LLM service is fatal: when [messages.create]
    raises, at the first request or at a follow-up, the generator makes no
    further call (no retry, no dispatch) and ends with that exception. *)
Theorem request_exception_propagates {C T : Type} (self : AIGenerator C)
    (query : string) (history : option string)
    (tool_defs : option (list ToolDefinition))
    (tool_manager : option (Dispatcher T)) (w w' : World C T)
    (res : outcome string) (calls pre post : list Event)
    (req : Request) (e : string) :
  generate_response self query history tool_defs tool_manager w
    = (res, w', calls) ->
  calls = pre ++ Created req (Raised e) :: post ->
  post = [] /\ res = Raised e.
Proof.
  intros Hrun Hcalls. apply generate_response_calls in Hrun.
  destruct Hrun as [(e0 & -> & ->)|(r & calls' & res' & -> & HL & ->)].
  { destruct pre as [|? [|? ?]]; try done.
    by injection Hcalls as _ -> ->. }
  apply Loop_raise_shape in HL.
  destruct HL as [[Hall _]|(pre' & ev & e' & -> & Hpre & Hev & ->)].
  - assert (Hnone : Forall (fun ev => raised_in ev = None)
                      (Created (initial_params self query history tool_defs)
                         (Returned r) :: calls'))
      by by constructor.
    rewrite Hcalls in Hnone. apply Forall_app in Hnone as [_ Hnone].
    by apply Forall_cons in Hnone as [[=] _].
  - destruct (raise_is_last
                (Created (initial_params self query history tool_defs)
                   (Returned r) :: pre')
                ev e' pre (Created req (Raised e)) e post)
      as [-> ->]; try done.
    by constructor.
Qed.

(** A follow-up request that fails: the rest of the script is not asked
    for. *)
Lemma request_exception_propagates_witness :
  fst (fst transport_failure_run) = Raised "connection lost" /\
  length (snd transport_failure_run) = 3%nat /\
  client_state (snd (fst transport_failure_run))
  = [Returned (make_text_response "unused")].
Proof.
  assert (Hcalls : exists pre req,
            snd transport_failure_run
            = pre ++ Created req (Raised "connection lost") :: []).
  { by eexists [_; _], _. }
  destruct Hcalls as (pre & req & Hcalls).
  split; [|split; reflexivity].
  exact (proj2 (request_exception_propagates script_generator "q" None
                  one_tool (Some (constant_dispatcher "outline")) _ _ _ _
                  pre [] req "connection lost"
                  (eq_refl : transport_failure_run = (_, _, _)) Hcalls)).
Defined.

(** X8: the generator raises nothing of its own: when it ends with an
    exception, that exception was raised by the last call it made, to the
    client or to the dispatcher; when no call raises, it returns an
    answer. *)
Theorem raises_only_what_a_call_raised {C T : Type} (self : AIGenerator C)
    (query : string) (history : option string)
    (tool_defs : option (list ToolDefinition))
    (tool_manager : option (Dispatcher T)) (w w' : World C T)
    (res : outcome string) (calls : list Event) :
  generate_response self query history tool_defs tool_manager w
    = (res, w', calls) ->
  (forall e, res = Raised e ->
     exists pre ev, calls = pre ++ [ev] /\ raised_in ev = Some e /\
                    Forall (fun ev => raised_in ev = None) pre) /\
  (Forall (fun ev => raised_in ev = None) calls ->
   exists answer, res = Returned answer).
Proof.
  intros Hrun. apply generate_response_calls in Hrun.
  destruct Hrun as [(e0 & -> & ->)|(r & calls' & res' & -> & HL & ->)].
  { split.
    - intros e [= <-]. by eexists [], _.
    - intros Hall. by apply Forall_cons in Hall as [[=] _]. }
  apply Loop_raise_shape in HL.
  destruct HL as [[Hall [final ->]]|(pre' & ev & e' & -> & Hpre & Hev & ->)].
  - split; [done|]. intros _. by eexists.
  - split.
    + intros e [= <-].
      exists (Created (initial_params self query history tool_defs)
                (Returned r) :: pre'), ev.
      split; [done|]. split; [done|]. by constructor.
    + intros Hall. apply Forall_cons in Hall as [_ Hall].
      apply Forall_app in Hall as [_ Hall].
      apply Forall_cons in Hall as [Hnone _]. congruence.
Qed.

Lemma raises_only_what_a_call_raised_witness :
  (exists pre ev,
     snd failing_dispatch_run = pre ++ [ev] /\
     raised_in ev = Some "store unreachable") /\
  exists answer, fst (fst two_rounds_run) = Returned answer.
Proof.
  assert (Hfail : failing_dispatch_run
                  = (Raised "store unreachable",
                     snd (fst failing_dispatch_run),
                     snd failing_dispatch_run)) by reflexivity.
  assert (Hrun : two_rounds_run
                 = (fst (fst two_rounds_run), snd (fst two_rounds_run),
                    snd two_rounds_run)) by reflexivity.
  split.
  - destruct (proj1 (raises_only_what_a_call_raised _ _ _ _ _ _ _ _ _ Hfail)
                _ eq_refl) as (pre & ev & Hcalls & Hev & _).
    by exists pre, ev.
  - apply (proj2 (raises_only_what_a_call_raised _ _ _ _ _ _ _ _ _ Hrun)).
    repeat constructor.
Defined.

(** * The dispatch of the blocks of a completion *)

(** X10: [_execute_tool_calls] never calls the LLM client and leaves its
    state as it was; it dispatches at most as many calls as the completion
    holds tool-use blocks, exactly as many when it returns, with one result
    per call; for a completion without tool-use blocks it returns the empty
    list without any call. *)
Theorem execute_tool_calls_frame {C T : Type} (tm : Dispatcher T)
    (r : Response) (w w' : World C T)
    (res : outcome (list ToolResult)) (calls : list Event) :
  _execute_tool_calls r tm w = (res, w', calls) ->
  client_state w' = client_state w /\
  requests calls = [] /\
  (length calls <= length (tool_uses (content r)))%nat /\
  (forall results, res = Returned results ->
     length calls = length (tool_uses (content r)) /\
     length results = length calls) /\
  (tool_uses (content r) = [] ->
   res = Returned [] /\ calls = [] /\ manager_state w' = manager_state w).
Proof.
  unfold _execute_tool_calls. intros Hrun.
  apply execute_blocks_calls in Hrun as [Hclient Hrun]. split; [done|].
  destruct Hrun as [(ss & Hss & -> & ->)
                   |(before & c & rest & ss & t & e & Huses & Hss & Hc & -> & ->)].
  - pose proof (replies_length _ _ _ _ _ Hss) as Hlen.
    split; [apply requests_executed|].
    rewrite length_zip_with. split; [lia|]. split.
    + intros results [= <-]. rewrite length_zip_with. lia.
    + intros Hnil. rewrite Hnil in Hss |- *. by inversion Hss.
  - pose proof (replies_length _ _ _ _ _ Hss) as Hlen.
    split; [by rewrite requests_executed_app|].
    rewrite length_app, length_zip_with, Huses, length_app. simpl.
    split; [lia|]. split; [done|].
    intros Hnil. rewrite Hnil in Huses. by destruct before.
Qed.

Lemma execute_tool_calls_frame_witness :
  let run :=
    _execute_tool_calls two_calls_resp (constant_dispatcher "r")
      (scripted [Returned (make_text_response "untouched")] tt) in
  client_state (snd (fst run)) = [Returned (make_text_response "untouched")] /\
  length (snd run) = 2%nat /\ requests (snd run) = [].
Proof.
  intros run.
  destruct (execute_tool_calls_frame (constant_dispatcher "r") two_calls_resp
              (scripted [Returned (make_text_response "untouched")] tt)
              (snd (fst run)) (fst (fst run)) (snd run) eq_refl)
    as (Hclient & Hreq & _ & Hlen & _).
  split; [exact Hclient|]. split; [|exact Hreq].
  exact (proj1 (Hlen _ eq_refl)).
Defined.

(** X11: the dispatch looks at the tool-use blocks only: text blocks,
    wherever they stand, and the stop condition of the completion change
    neither the calls made nor the results nor the state left. *)
Theorem text_blocks_skipped {C T : Type} (tm : Dispatcher T)
    (r r' : Response) (w : World C T) :
  tool_uses (content r) = tool_uses (content r') ->
  _execute_tool_calls r tm w = _execute_tool_calls r' tm w.
Proof.
  intros Huses. unfold _execute_tool_calls.
  destruct (execute_blocks tm (content r) [] w) as [[res w'] calls] eqn:Hrun.
  apply execute_blocks_calls in Hrun as [Hclient Hrun].
  destruct Hrun as [(ss & Hss & -> & ->)
                   |(before & c & rest & ss & t & e & Hsplit & Hss & Hc & -> & ->)].
  - rewrite Huses in Hss |- *.
    rewrite (execute_blocks_replies tm (content r') [] w ss _ Hss).
    destruct w'. simpl in *. by rewrite Hclient.
  - rewrite Huses in Hsplit.
    rewrite (execute_blocks_raises tm (content r') [] w before c rest ss t
               _ e Hsplit Hss Hc).
    destruct w'. simpl in *. by rewrite Hclient.
Qed.

Lemma text_blocks_skipped_witness :
  _execute_tool_calls third_resp (constant_dispatcher "r")
    (scripted ([] : list (outcome Response)) tt)
  = _execute_tool_calls (tool_only "call_3") (constant_dispatcher "r")
      (scripted [] tt).
Proof.
  exact (text_blocks_skipped (constant_dispatcher "r") third_resp
           (tool_only "call_3") (scripted [] tt) eq_refl).
Defined.

(** * The history in the system context *)

Lemma string_app_nil_r (a : string) : a +:+ "" = a.
Proof.
  induction a as [|x a IH]; [reflexivity|].
  change (String x (a +:+ "") = String x a). by rewrite IH.
Qed.

Lemma string_app_length (a b : string) :
  String.length (a +:+ b) = (String.length a + String.length b)%nat.
Proof.
  induction a as [|x a IH]; [reflexivity|].
  change (S (String.length (a +:+ b))
          = S (String.length a + String.length b)). by rewrite IH.
Qed.

(** X12: with a history that is not empty, every request of the
    invocation carries as its system context the system prompt, a blank
    line, the heading [Previous conversation:] and the history as it is:
    the context starts with the system prompt, holds the heading and the
    history, and is not the bare system prompt. *)
Theorem history_in_system_context {C T : Type} (self : AIGenerator C)
    (query h : string) (tool_defs : option (list ToolDefinition))
    (tool_manager : option (Dispatcher T)) (w w' : World C T)
    (res : outcome string) (calls : list Event)
    (req : Request) (reply : outcome Response) :
  h <> "" ->
  generate_response self query (Some h) tool_defs tool_manager w
    = (res, w', calls) ->
  In (Created req reply) calls ->
  system req
  = SYSTEM_PROMPT +:+ nl +:+ nl +:+ "Previous conversation:" +:+ nl +:+ h /\
  String.prefix SYSTEM_PROMPT (system req) = true /\
  contains "Previous conversation:" (system req) = true /\
  contains h (system req) = true /\
  system req <> SYSTEM_PROMPT.
Proof.
  intros Hh Hrun Hin.
  destruct (generate_response_parameters _ _ _ _ _ _ _ _ _ _ _ Hrun Hin)
    as (_ & _ & _ & Hsystem & _).
  assert (Hcontent : system req
            = SYSTEM_PROMPT +:+ nl +:+ nl +:+ "Previous conversation:"
                +:+ nl +:+ h).
  { rewrite Hsystem. destruct h as [|a h]; [done|].
    unfold initial_params. by destruct (truthy_list tool_defs). }
  rewrite Hcontent. split; [done|]. split; [apply prefix_app|].
  split; [|split].
  - replace (SYSTEM_PROMPT +:+ nl +:+ nl +:+ "Previous conversation:"
               +:+ nl +:+ h)
      with ((SYSTEM_PROMPT +:+ nl +:+ nl) +:+ "Previous conversation:"
              +:+ (nl +:+ h))
      by (by rewrite !string_app_assoc).
    apply contains_app.
  - replace (SYSTEM_PROMPT +:+ nl +:+ nl +:+ "Previous conversation:"
               +:+ nl +:+ h)
      with ((SYSTEM_PROMPT +:+ nl +:+ nl +:+ "Previous conversation:"
               +:+ nl) +:+ h +:+ "")
      by (by rewrite !string_app_assoc, string_app_nil_r).
    apply contains_app.
  - intros Heq. apply (f_equal String.length) in Heq.
    rewrite !string_app_length in Heq.
    change (String.length nl) with 1%nat in Heq. lia.
Qed.

(** The scenario of [test_conversation_history_in_system]. *)
Lemma history_in_system_context_witness :
  let history :=
    "User: Hi" +:+ nl +:+ "Assistant: Hello!" in
  let calls :=
    snd (generate_response script_generator "test" (Some history) None
           (@None (Dispatcher unit))
           (scripted [Returned (make_text_response "Hello from Claude")] tt)) in
  exists req reply,
    calls = [Created req reply] /\
    contains "Previous conversation:" (system req) = true /\
    contains history (system req) = true.
Proof.
  intros history calls. eexists _, _. split; [reflexivity|].
  destruct (history_in_system_context script_generator "test" history None
              (@None (Dispatcher unit))
              (scripted [Returned (make_text_response "Hello from Claude")] tt)
              _ _ calls _ _
              ltac:(discriminate) eq_refl (or_introl eq_refl))
    as (_ & _ & Hheading & Hhistory & _).
  split; [exact Hheading|exact Hhistory].
Defined.
